(** * Openroot helping hand: the star-state engine of [script.js]

    A shallow embedding of the star engine of [src/script.js] (v1.3.3):
    identity resolution, the per-user storage slot, the star registry
    ([starredMap]), the card indexer ([setupCards]), the toggle
    ([toggleStar]) and the two reordering entry points ([reorderSegment],
    [repositionCard]).

    Modelling conventions.
    - A JS string is a [string]; a string is truthy iff it is not empty.
      A value that may be [null]/[undefined] is an [option].
    - A JS [Set] of strings is the list of its members in insertion order
      (module [JSSet]); a [Map] is a [gmap], and so is the own enumerable
      content of a plain object (see [snapshot] for the one key that a
      plain object does not take as a property).
    - DOM elements have identity: a card carries the number of its node.
      Segment containers are never created, removed or moved by the script,
      so an element reference to a segment is its position in document
      order. Segment containers are not nested and cards are children of
      their segment.
    - [dataset.origIndex] is only ever written by [setupCards], as
      [idx.toString()]; it is kept as the number it prints, [None] when the
      attribute is absent ([Number(undefined) || 0] is [0]).
    - [requestAnimationFrame] callbacks are a FIFO queue of tasks that the
      next frame runs.
    - The text stored under a [starredCards_*] key is kept as the object it
      parses to, an object of arrays of strings; [JSON.stringify] followed
      by [JSON.parse] is the identity on such objects. *)

From Stdlib Require Import Ascii String List Arith Bool Lia.
From stdpp Require Import gmap strings list fin_maps pretty sorting.

(** ** JavaScript values *)

(** [Boolean(s)] for a string. *)
Definition truthy (s : string) : bool := negb (String.eqb s "").

(** [Boolean(v)] for a string that may be [null] or [undefined]. *)
Definition truthy_opt (v : option string) : bool :=
  match v with
  | Some s => truthy s
  | None => false
  end.

(** [a || b] on possibly missing strings. *)
Definition js_or (a b : option string) : option string :=
  if truthy_opt a then a else b.

(** ** Insertion-ordered sets of strings (JS [Set]) *)

Module JSSet.

Abbreviation t := (list string).

(** [new Set()] *)
Definition empty : t := [].

(** [set.has(x)] *)
Definition has (x : string) (s : t) : bool := bool_decide (x ∈ s).

(** [set.has(v)] where [v] may be [undefined]: the sets hold strings only. *)
Definition has_opt (v : option string) (s : t) : bool :=
  match v with
  | Some x => has x s
  | None => false
  end.

(** [set.add(x)]: a new member goes last, a present one keeps its place. *)
Definition add (x : string) (s : t) : t :=
  if has x s then s else s ++ [x].

(** [set.delete(x)] *)
Definition delete (x : string) (s : t) : t :=
  filter (λ y, y ≠ x) s.

(** [set.size] *)
Definition size (s : t) : nat := length s.

(** [set.values().next().value]: the oldest member, [undefined] if none. *)
Definition first (s : t) : option string := head s.

(** [new Set(ids)] *)
Definition of_list (ids : list string) : t :=
  foldl (λ s x, add x s) empty ids.

(** [Array.from(set)] *)
Definition to_list (s : t) : list string := s.

End JSSet.

(** ** The document *)

(** The star control of a card: the [starred] class, [aria-pressed] and
    [aria-label]. *)
Record star_btn := StarBtn {
  cls_starred : bool;
  aria_pressed : option string;
  aria_label : option string
}.

(** An element with class [card] or [job-card]. *)
Record card := Card {
  node : nat;                       (* identity of the element *)
  data_id : option string;          (* dataset.id *)
  data_origIndex : option nat;      (* dataset.origIndex *)
  data_url : option string;         (* dataset.url *)
  btn : option star_btn             (* its first .star-btn, if any *)
}.

(** An element with class [card-grid] or [job-grid], with the cards below
    it in document order. *)
Record segment := Segment {
  attr_id : option string;          (* getAttribute("id") *)
  className : string;
  data_segId : option string;       (* dataset.segId *)
  seg_cards : list card
}.

(** The cards inside segments, and the cards outside every segment. *)
Record document := Document {
  segments : list segment;
  loose_cards : list card
}.

Definition set_cards (cs : list card) (s : segment) : segment :=
  {| attr_id := attr_id s; className := className s;
     data_segId := data_segId s; seg_cards := cs |}.

Definition set_btn (b : option star_btn) (c : card) : card :=
  {| node := node c; data_id := data_id c;
     data_origIndex := data_origIndex c; data_url := data_url c; btn := b |}.

(** [root.querySelectorAll(".card, .job-card")] *)
Definition all_cards (d : document) : list card :=
  concat (seg_cards <$> segments d) ++ loose_cards d.

(** The card element with a given identity. *)
Definition find_card (n : nat) (d : document) : option card :=
  List.find (λ c, bool_decide (node c = n)) (all_cards d).

(** Apply [f] to the element [n], wherever it is. *)
Definition map_node (n : nat) (f : card → card) (d : document) : document :=
  let upd := λ c, if decide (node c = n) then f c else c in
  {| segments := (λ s, set_cards (upd <$> seg_cards s) s) <$> segments d;
     loose_cards := upd <$> loose_cards d |}.

(** ** Constants *)

Definition MAX_STARS : nat := 5.

(** ** updateStarAttr *)

Definition updateStarAttr (isStarred : bool) (b : star_btn) : star_btn :=
  {| cls_starred := isStarred;
     aria_pressed := Some (if isStarred then "true" else "false");
     aria_label := Some (if isStarred then "Unstar card" else "Star card") |}.

(** ** STEP 1: the user identity *)

(** What a statement does: it completes with a value or throws. *)
Inductive outcome (A : Type) :=
| Returns (a : A)
| Throws (msg : string).
Arguments Returns {A} a.
Arguments Throws {A} msg.

(** *** decodeURIComponent

    Strings are sequences of UTF-8 bytes. An escape [%XY] needs two
    hexadecimal digits; an escaped byte of [0x80] or more starts a
    multi-byte character whose other bytes must be escapes too and
    which must be well-formed UTF-8. Anything else is a [URIError]. *)

Definition hex_digit (c : ascii) : option N :=
  let n := N_of_ascii c in
  if (48 <=? n)%N && (n <=? 57)%N then Some (n - 48)%N
  else if (65 <=? n)%N && (n <=? 70)%N then Some (n - 55)%N
  else if (97 <=? n)%N && (n <=? 102)%N then Some (n - 87)%N
  else None.

Inductive uri_tok :=
| Lit (c : ascii)
| Esc (b : N).

Fixpoint uri_tokens (s : string) : option (list uri_tok) :=
  match s with
  | EmptyString => Some []
  | String c rest =>
      if Ascii.eqb c "%" then
        match rest with
        | String h (String l rest') =>
            match hex_digit h, hex_digit l with
            | Some a, Some b => cons (Esc (16 * a + b)%N) <$> uri_tokens rest'
            | _, _ => None
            end
        | _ => None
        end
      else cons (Lit c) <$> uri_tokens rest
  end.

Definition between (lo hi b : N) : bool := (lo <=? b)%N && (b <=? hi)%N.

(** The ranges allowed for the bytes that follow the lead byte [b] of a
    well-formed UTF-8 sequence. *)
Definition utf8_tail (b : N) : option (list (N * N)) :=
  (if between 0xC2 0xDF b then Some [(0x80, 0xBF)]
  else if (b =? 0xE0) then Some [(0xA0, 0xBF); (0x80, 0xBF)]
  else if between 0xE1 0xEC b then Some [(0x80, 0xBF); (0x80, 0xBF)]
  else if (b =? 0xED) then Some [(0x80, 0x9F); (0x80, 0xBF)]
  else if between 0xEE 0xEF b then Some [(0x80, 0xBF); (0x80, 0xBF)]
  else if (b =? 0xF0) then Some [(0x90, 0xBF); (0x80, 0xBF); (0x80, 0xBF)]
  else if between 0xF1 0xF3 b then Some [(0x80, 0xBF); (0x80, 0xBF); (0x80, 0xBF)]
  else if (b =? 0xF4) then Some [(0x80, 0x8F); (0x80, 0xBF); (0x80, 0xBF)]
  else None)%N.

Definition in_range (r : N * N) (b : N) : bool := between r.1 r.2 b.

Fixpoint uri_octets (ts : list uri_tok) : option (list ascii) :=
  match ts with
  | [] => Some []
  | Lit c :: ts' => cons c <$> uri_octets ts'
  | Esc b :: ts' =>
      if (b <? 0x80)%N then cons (ascii_of_N b) <$> uri_octets ts'
      else
        match utf8_tail b, ts' with
        | Some [r1], Esc b1 :: t1 =>
            if in_range r1 b1
            then List.app [ascii_of_N b; ascii_of_N b1] <$> uri_octets t1
            else None
        | Some [r1; r2], Esc b1 :: Esc b2 :: t2 =>
            if in_range r1 b1 && in_range r2 b2
            then List.app [ascii_of_N b; ascii_of_N b1; ascii_of_N b2] <$> uri_octets t2
            else None
        | Some [r1; r2; r3], Esc b1 :: Esc b2 :: Esc b3 :: t3 =>
            if in_range r1 b1 && in_range r2 b2 && in_range r3 b3
            then List.app [ascii_of_N b; ascii_of_N b1; ascii_of_N b2; ascii_of_N b3]
                   <$> uri_octets t3
            else None
        | _, _ => None
        end
  end.

Definition decodeURIComponent (s : string) : outcome string :=
  match uri_tokens s ≫= uri_octets with
  | Some bytes => Returns (string_of_list_ascii bytes)
  | None => Throws "URIError: URI malformed"
  end.

(** *** URLSearchParams

    [new URLSearchParams(init)] and [get], after the URL Standard: one
    leading [?] is dropped; the rest is split at every [&] and empty
    pieces are skipped; a piece is cut at its first [=] into name and
    value (no [=]: the value is empty); in both, [+] stands for a space
    and [%XY] with two hexadecimal digits for the byte [XY], any other
    [%] for itself; the bytes are then read as UTF-8, every ill-formed
    sequence giving one U+FFFD. *)

Fixpoint form_bytes (s : string) : list ascii :=
  match s with
  | EmptyString => []
  | String c rest =>
      if Ascii.eqb c "+" then " "%char :: form_bytes rest
      else if Ascii.eqb c "%" then
        match rest with
        | String h (String l rest') =>
            match hex_digit h, hex_digit l with
            | Some a, Some b => ascii_of_N (16 * a + b) :: form_bytes rest'
            | _, _ => c :: form_bytes rest
            end
        | _ => c :: form_bytes rest
        end
      else c :: form_bytes rest
  end.

(** U+FFFD in UTF-8. *)
Definition U_FFFD : list ascii := ascii_of_N <$> [0xEF; 0xBF; 0xBD]%N.

(** A byte met where a character starts: the bytes emitted at once, the
    bytes held back, and the ranges of the bytes still awaited. *)
Definition utf8_lead (b : ascii) : list ascii * list ascii * list (N * N) :=
  if (N_of_ascii b <? 0x80)%N then ([b], [], [])
  else match utf8_tail (N_of_ascii b) with
       | Some rs => ([], [b], rs)
       | None => (U_FFFD, [], [])
       end.

(** The UTF-8 decoder of the Encoding Standard, with replacement: a byte
    outside the awaited range ends the sequence with U+FFFD and is read
    again as the start of a character; so does the end of the input. *)
Fixpoint utf8_decode (held : list ascii) (awaited : list (N * N))
    (bs : list ascii) : list ascii :=
  match bs with
  | [] => match awaited with [] => [] | _ :: _ => U_FFFD end
  | b :: bs' =>
      match awaited with
      | [] =>
          let '(out, held', awaited') := utf8_lead b in
          out ++ utf8_decode held' awaited' bs'
      | r :: rs =>
          if in_range r (N_of_ascii b)
          then match rs with
               | [] => held ++ b :: utf8_decode [] [] bs'
               | _ :: _ => utf8_decode (held ++ [b]) rs bs'
               end
          else
            let '(out, held', awaited') := utf8_lead b in
            U_FFFD ++ out ++ utf8_decode held' awaited' bs'
      end
  end.

Definition form_decode (s : string) : string :=
  string_of_list_ascii (utf8_decode [] [] (form_bytes s)).

(** The pieces of [s] between the occurrences of [sep]. *)
Fixpoint split_on (sep : ascii) (s : string) : list string :=
  match s with
  | EmptyString => [EmptyString]
  | String c rest =>
      if Ascii.eqb c sep then EmptyString :: split_on sep rest
      else match split_on sep rest with
           | piece :: pieces => String c piece :: pieces
           | [] => [String c EmptyString]
           end
  end.

(** What is in front of the first [sep], and what follows it. *)
Fixpoint cut_at (sep : ascii) (s : string) : string * string :=
  match s with
  | EmptyString => (EmptyString, EmptyString)
  | String c rest =>
      if Ascii.eqb c sep then (EmptyString, rest)
      else let '(name, value) := cut_at sep rest in (String c name, value)
  end.

Definition URLSearchParams (init : string) : list (string * string) :=
  let query := match init with
               | String c rest => if Ascii.eqb c "?" then rest else init
               | EmptyString => init
               end in
  (λ piece, let '(name, value) := cut_at "=" piece in
            (form_decode name, form_decode value))
    <$> List.filter truthy (split_on "&" query).

(** [params.get(name)]: the value of the first pair of that name. *)
Definition URLSearchParams_get (name : string) (params : list (string * string))
  : option string :=
  snd <$> List.find (λ p, String.eqb p.1 name) params.

(** *** Sources of the identity *)

(** What the page load finds outside the slots the script owns:
    [urlParams.get("uid")], [urlParams.get("user")] and the main site's
    [openrootUserUID] in [localStorage] and in [sessionStorage]. *)
Record page_env := PageEnv {
  url_uid : option string;
  url_user : option string;
  main_local : option string;
  main_session : option string
}.

(** [v || null] *)
Definition or_null (v : option string) : option string :=
  if truthy_opt v then v else None.

Definition uidFromUrl (e : page_env) : option string :=
  or_null (js_or (url_uid e) (url_user e)).

Definition uidFromMainSite (e : page_env) : option string :=
  or_null (js_or (main_local e) (main_session e)).

(** [cached] is [localStorage.getItem("openroot_current_uid")]. *)
Definition cachedUid (cached : option string) : option string :=
  or_null cached.

Definition guest_literal : string := "guest_user".

(** Lines 22-30, once the reads of lines 12-19 have given [e] and
    [cached]: URL, then main site, then cache, then guest. *)
Definition resolve_USER_UID (e : page_env) (cached : option string)
  : outcome string :=
  match uidFromUrl e with
  | Some u => decodeURIComponent u
  | None =>
      match uidFromMainSite e with
      | Some u => Returns u
      | None =>
          match cachedUid cached with
          | Some u => Returns u
          | None => Returns guest_literal
          end
      end
  end.

(** Lines 32-38: the value handed to
    [localStorage.setItem("openroot_current_uid", _)], if the call is made. *)
Definition uid_persist (uid : string) (cached : option string)
  : option string :=
  if truthy uid && negb (bool_decide (Some uid = cachedUid cached))
  then Some uid else None.

(** The browser at a page load, outside the slots the script owns:
    [window.location.search]; whether the page may use Web Storage (when
    it may not, reading [window.localStorage] or [window.sessionStorage]
    throws a [SecurityError]); and the main site's [openrootUserUID] in
    either storage. *)
Record browser := Browser {
  location_search : string;
  storage_access : bool;
  site_local : option string;
  site_session : option string
}.

(** Lines 12-17: what the script reads. *)
Definition env_of (b : browser) : page_env :=
  let urlParams := URLSearchParams (location_search b) in
  {| url_uid := URLSearchParams_get "uid" urlParams;
     url_user := URLSearchParams_get "user" urlParams;
     main_local := site_local b;
     main_session := site_session b |}.

(** Lines 12-30 from the start of the script. The reads of lines 15-19
    are in no [try]: without access to storage the first of them throws
    and the script stops there, before line 22 looks at the token of the
    URL. *)
Definition startup_USER_UID (b : browser) (cached : option string)
  : outcome string :=
  if storage_access b then resolve_USER_UID (env_of b) cached
  else Throws "SecurityError".

(** ** STEP 2 and 3: the storage slot of a user *)

Definition getStorageKey (uid : string) : string := "starredCards_" +:+ uid.

(** The part of [localStorage] the script writes: its cached identity and
    the star slots. *)
Record storage := Store {
  cached_uid : option string;
  star_slots : gmap string (gmap string (list string))
}.

(** [Storage.get(fallback)]: an absent, empty or unparseable slot gives
    the fallback. *)
Definition Storage_get (uid : string) (fallback : gmap string (list string))
    (ls : storage) : gmap string (list string) :=
  default fallback (star_slots ls !! getStorageKey uid).

(** [Storage.set(value)]: [quota_ok] tells whether [setItem] succeeds;
    when it throws the error is caught and nothing is written. *)
Definition Storage_set (uid : string) (value : gmap string (list string))
    (quota_ok : bool) (ls : storage) : storage :=
  if quota_ok
  then {| cached_uid := cached_uid ls;
          star_slots := <[getStorageKey uid := value]> (star_slots ls) |}
  else ls.

(** ** STEP 4: the application *)

(** A callback waiting for the next animation frame. *)
Inductive task :=
| ReorderAll                         (* queued by init *)
| AppendFragment (si : nat) (fi : nat) (* queued by reorderSegment *)
| Reposition (n : nat).              (* queued by repositionCard *)

(** The instance of [OpenrootApp] with the identity it runs under.
    [frags] are the document fragments made by [reorderSegment], each with
    the cards it holds; a fragment is referred to by its position. *)
Record app := App {
  USER_UID : string;
  dom : document;
  frags : list (list card);
  starredMap : gmap string JSSet.t;
  cardSegmentMap : gmap string nat;
  raf : list task
}.

(** [requestAnimationFrame(callback)] *)
Definition requestAnimationFrame (t : task) (a : app) : app :=
  {| USER_UID := USER_UID a; dom := dom a; frags := frags a;
     starredMap := starredMap a; cardSegmentMap := cardSegmentMap a;
     raf := raf a ++ [t] |}.

(** *** setupCards *)

Definition is_space (c : ascii) : bool :=
  let n := N_of_ascii c in ((n =? 32) || between 9 13 n)%N.

Definition lower (c : ascii) : ascii :=
  let n := N_of_ascii c in
  if between 65 90 n then ascii_of_N (n + 32) else c.

(** [label.replace(/\s+/g, "_").toLowerCase()] for a label of ASCII
    characters: there [\s] is one of the six characters of [is_space] and
    [toLowerCase] touches the letters [A] to [Z] only. The bytes of other
    characters are copied, whereas the program also replaces the white
    space and lower-cases the letters outside ASCII; what is stated of the
    derived identifier beyond its being non-empty is stated of ASCII
    labels. *)
Fixpoint normalize_from (in_ws : bool) (s : string) : string :=
  match s with
  | EmptyString => EmptyString
  | String c r =>
      if is_space c
      then if in_ws then normalize_from true r
           else String "_" (normalize_from true r)
      else String (lower c) (normalize_from false r)
  end.

Definition normalize_label (label : string) : string :=
  normalize_from false label.

(** [seg.getAttribute("id") || seg.className || "segment"] *)
Definition seg_label (s : segment) : string :=
  default "segment" (js_or (js_or (attr_id s) (Some (className s))) (Some "segment")).

(** Lines 146-149: the segment identifier once the loop has seen [s]. *)
Definition assign_segId (s : segment) : string :=
  match data_segId s with
  | Some v => if truthy v then v else normalize_label (seg_label s)
  | None => normalize_label (seg_label s)
  end.

(** Lines 152-156, the [forEach] over the cards of segment [si], from
    position [idx] on. *)
Fixpoint setup_seg_cards (si idx : nat) (cs : list card) (autoId : nat)
    (csm : gmap string nat) : list card * nat * gmap string nat :=
  match cs with
  | [] => ([], autoId, csm)
  | c :: cs' =>
      let '(id, autoId') :=
        match data_id c with
        | Some v => if truthy v then (v, autoId)
                    else ("card-" +:+ pretty (S autoId), S autoId)
        | None => ("card-" +:+ pretty (S autoId), S autoId)
        end in
      let c' := {| node := node c; data_id := Some id;
                   data_origIndex := Some idx;
                   data_url := data_url c; btn := btn c |} in
      let '(cs'', a, m) :=
        setup_seg_cards si (S idx) cs' autoId' (<[id := si]> csm) in
      (c' :: cs'', a, m)
  end.

(** Lines 145-161, the loop over the segments, from segment [si] on. *)
Fixpoint setup_segments (si : nat) (segs : list segment) (autoId : nat)
    (csm : gmap string nat) (reg : gmap string JSSet.t)
  : list segment * gmap string nat * gmap string JSSet.t :=
  match segs with
  | [] => ([], csm, reg)
  | s :: segs' =>
      let segId := assign_segId s in
      let '(cs, autoId', csm') :=
        setup_seg_cards si 0 (seg_cards s) autoId csm in
      let s' := {| attr_id := attr_id s; className := className s;
                   data_segId := Some segId; seg_cards := cs |} in
      let reg' := match reg !! segId with
                  | Some _ => reg
                  | None => <[segId := JSSet.empty]> reg
                  end in
      let '(segs'', m, r) := setup_segments (S si) segs' autoId' csm' reg' in
      (s' :: segs'', m, r)
  end.

Definition setupCards (a : app) : app :=
  let '(segs, csm, reg) :=
    setup_segments 0 (segments (dom a)) 0 (cardSegmentMap a) (starredMap a) in
  {| USER_UID := USER_UID a;
     dom := {| segments := segs; loose_cards := loose_cards (dom a) |};
     frags := frags a; starredMap := reg; cardSegmentMap := csm; raf := raf a |}.

(** *** applyInitialStarState *)

(** [cardSegmentMap.get(id)?.dataset.segId] for a card. *)
Definition segId_of (a : app) (c : card) : option string :=
  data_id c ≫= λ id, cardSegmentMap a !! id ≫= λ si,
  segments (dom a) !! si ≫= data_segId.

(** The body of the loop: a card without button, identifier or segment
    identifier is skipped. *)
Definition apply_star_state (a : app) (c : card) : card :=
  match btn c, data_id c, segId_of a c with
  | Some b, Some id, Some segId =>
      if truthy id && truthy segId then
        let isStarred :=
          match starredMap a !! segId with
          | Some set => JSSet.has id set
          | None => false
          end in
        set_btn (Some (updateStarAttr isStarred b)) c
      else c
  | _, _, _ => c
  end.

Definition applyInitialStarState (a : app) : app :=
  {| USER_UID := USER_UID a;
     dom := {| segments :=
                 (λ s, set_cards (apply_star_state a <$> seg_cards s) s)
                   <$> segments (dom a);
               loose_cards := apply_star_state a <$> loose_cards (dom a) |};
     frags := frags a; starredMap := starredMap a; cardSegmentMap := cardSegmentMap a;
     raf := raf a |}.

(** *** init *)

(** Lines 114-123: one set per persisted segment. *)
Definition hydrate (saved : gmap string (list string)) : gmap string JSSet.t :=
  JSSet.of_list <$> saved.

(** Lines 284-287: the object handed to [Storage.set], as
    [JSON.stringify] sees it. [toSave] is a plain object [{}]: for the
    key [__proto__] the assignment [toSave[k] = Array.from(set)] runs the
    setter inherited from [Object.prototype], which makes the array the
    prototype of [toSave] and adds no property; every other key becomes
    an own property. *)
Definition snapshot (reg : gmap string JSSet.t) : gmap string (list string) :=
  JSSet.to_list <$> delete "__proto__" reg.

(** [init()], lines 109-138, for a new [OpenrootApp] on the document [d]. *)
Definition init (uid : string) (d : document) (ls : storage) : app :=
  let saved := Storage_get uid ∅ ls in
  let a0 := {| USER_UID := uid; dom := d; frags := [];
               starredMap := hydrate saved; cardSegmentMap := ∅; raf := [] |} in
  let a1 := applyInitialStarState (setupCards a0) in
  requestAnimationFrame ReorderAll a1.

(** *** toggleStar *)

(** Lines 242-258: the card of the clicked star control, its identifier
    and the identifier of its segment; [None] on each early [return]. The
    clicked control belongs to a card of the document, and a segment found
    in [cardSegmentMap] has its identifier from [setupCards]. *)
Definition toggle_target (a : app) (n : nat) : option (card * string * string) :=
  c ← find_card n (dom a);
  _ ← btn c;
  id ← data_id c;
  if truthy id then
    si ← cardSegmentMap a !! id;
    seg ← segments (dom a) !! si;
    segId ← data_segId seg;
    Some (c, id, segId)
  else None.

(** Lines 270-271: the oldest member leaves, unless it is falsy. *)
Definition evict_oldest (segSet : JSSet.t) : JSSet.t :=
  match JSSet.first segSet with
  | Some oldest => if truthy oldest then JSSet.delete oldest segSet else segSet
  | None => segSet
  end.

(** Lines 274-280, on the set. *)
Definition flip (id : string) (segSet : JSSet.t) : JSSet.t :=
  if JSSet.has id segSet then JSSet.delete id segSet else JSSet.add id segSet.

(** Line 265: the card is not starred and its segment is full. *)
Definition at_capacity (id : string) (segSet : JSSet.t) : bool :=
  negb (JSSet.has id segSet) && (MAX_STARS <=? JSSet.size segSet).

(** [repositionCard(card)], lines 334-368: all of its work waits for the
    next frame. *)
Definition repositionCard (n : nat) (a : app) : app :=
  requestAnimationFrame (Reposition n) a.

(** What one call does besides changing the application: the object it
    passes to [Storage.set], if it gets that far. *)
Record toggled := Toggled {
  t_app : app;
  t_saved : option (gmap string (list string))
}.

(** [confirm] is the answer [window.confirm] gives when it is asked. *)
Definition toggleStar (n : nat) (confirm : bool) (a : app) : toggled :=
  match toggle_target a n with
  | None => {| t_app := a; t_saved := None |}
  | Some (c, id, segId) =>
      (* line 261 *)
      let reg0 := match starredMap a !! segId with
                  | Some _ => starredMap a
                  | None => <[segId := JSSet.empty]> (starredMap a)
                  end in
      let a0 := {| USER_UID := USER_UID a; dom := dom a; frags := frags a;
                   starredMap := reg0; cardSegmentMap := cardSegmentMap a;
                   raf := raf a |} in
      let segSet := default JSSet.empty (reg0 !! segId) in
      (* lines 265-272 *)
      if at_capacity id segSet && negb confirm
      then {| t_app := a0; t_saved := None |}
      else
        let segSet1 :=
          if at_capacity id segSet then evict_oldest segSet else segSet in
        (* lines 274-280 *)
        let now := negb (JSSet.has id segSet1) in
        let segSet2 := flip id segSet1 in
        let d := map_node n (λ x, set_btn (updateStarAttr now <$> btn x) x) (dom a) in
        (* line 282 *)
        let reg := <[segId := segSet2]> reg0 in
        (* lines 284-296 *)
        {| t_app :=
             repositionCard n
               {| USER_UID := USER_UID a; dom := d; frags := frags a;
                  starredMap := reg; cardSegmentMap := cardSegmentMap a;
                  raf := raf a |};
           t_saved := Some (snapshot reg) |}
  end.

(** *** reorderSegment *)

(** [Number(c.dataset.origIndex) || 0] *)
Definition origIndex (c : card) : nat := default 0 (data_origIndex c).

(** [unstarred.sort((a, b) => origIndex(a) - origIndex(b))]: a stable
    sort on the original index. *)
Fixpoint insert_by_origIndex (c : card) (l : list card) : list card :=
  match l with
  | [] => [c]
  | x :: l' =>
      if origIndex c <=? origIndex x then c :: x :: l'
      else x :: insert_by_origIndex c l'
  end.

Definition sort_by_origIndex (l : list card) : list card :=
  foldr insert_by_origIndex [] l.

(** [id && segSet.has(id)] *)
Definition is_starred (segSet : JSSet.t) (c : card) : bool :=
  match data_id c with
  | Some id => truthy id && JSSet.has id segSet
  | None => false
  end.

(** Lines 310-323: the children of the fragment. *)
Definition reorder_layout (segSet : JSSet.t) (cards : list card) : list card :=
  let starred := List.filter (is_starred segSet) cards in
  let unstarred := List.filter (λ c, negb (is_starred segSet c)) cards in
  starred ++ sort_by_origIndex unstarred.

Definition update_segment (si : nat) (f : segment → segment) (d : document)
  : document :=
  {| segments := alter f si (segments d); loose_cards := loose_cards d |}.

(** The synchronous part of [reorderSegment]: the cards move into a
    fragment, whose append waits for the next frame. *)
Definition reorderSegment (si : nat) (a : app) : app :=
  match segments (dom a) !! si with
  | None => a
  | Some seg =>
      let cards := seg_cards seg in
      if length cards <=? 1 then a
      else
        let segSet :=
          default JSSet.empty (data_segId seg ≫= λ k, starredMap a !! k) in
        let frag := reorder_layout segSet cards in
        requestAnimationFrame (AppendFragment si (length (frags a)))
          {| USER_UID := USER_UID a;
             dom := update_segment si (set_cards []) (dom a);
             frags := frags a ++ [frag];
             starredMap := starredMap a; cardSegmentMap := cardSegmentMap a;
             raf := raf a |}
  end.

(** *** repositionCard *)

(** [segment.insertBefore(c, ref)], or [segment.appendChild(c)] without
    [ref], on the children of the segment once [c] has left its place. *)
Fixpoint place_before (ref : nat) (c : card) (l : list card) : list card :=
  match l with
  | [] => [c]
  | x :: l' =>
      if decide (node x = ref) then c :: x :: l'
      else x :: place_before ref c l'
  end.

Definition without (n : nat) (l : list card) : list card :=
  List.filter (λ x, negb (bool_decide (node x = n))) l.

Definition dom_insert (c : card) (ref : option card) (cards : list card)
  : list card :=
  match ref with
  | Some r => place_before (node r) c (without (node c) cards)
  | None => without (node c) cards ++ [c]
  end.

(** [cards.reduce((acc, c, idx) => segSet.has(c.dataset.id) ? idx : acc, -1)],
    plus one. *)
Definition after_last_star (segSet : JSSet.t) (cards : list card) : nat :=
  foldl (λ acc '(idx, c), if JSSet.has_opt (data_id c) segSet then S idx else acc)
        0 (imap (λ i c, (i, c)) cards).

(** Lines 346-363: the new children of the segment. *)
Definition reposition_cards (segSet : JSSet.t) (c : card) (cards : list card)
  : list card :=
  match data_id c with
  | None => cards
  | Some id =>
      if JSSet.has id segSet then
        let firstUn :=
          List.find (λ x, negb (JSSet.has_opt (data_id x) segSet)) cards in
        dom_insert c firstUn cards
      else
        let beforeNode :=
          List.find (λ cur, origIndex c <? origIndex cur)
                    (drop (after_last_star segSet cards) cards) in
        dom_insert c beforeNode cards
  end.

(** The element [n], in the document or in a fragment. *)
Definition find_node (n : nat) (a : app) : option card :=
  List.find (λ c, bool_decide (node c = n)) (all_cards (dom a) ++ concat (frags a)).

(** The element [n] leaves its parent. *)
Definition detach (n : nat) (a : app) : app :=
  {| USER_UID := USER_UID a;
     dom := {| segments :=
                 (λ s, set_cards (without n (seg_cards s)) s) <$> segments (dom a);
               loose_cards := without n (loose_cards (dom a)) |};
     frags := without n <$> frags a;
     starredMap := starredMap a; cardSegmentMap := cardSegmentMap a;
     raf := raf a |}.

(** The callback of [repositionCard], lines 336-366. *)
Definition repositionCard_callback (n : nat) (a : app) : app :=
  match find_node n a with
  | None => a
  | Some c =>
      match data_id c ≫= λ id, cardSegmentMap a !! id with
      | None => a
      | Some si =>
          match segments (dom a) !! si with
          | None => a
          | Some seg =>
              let segSet :=
                default JSSet.empty (data_segId seg ≫= λ k, starredMap a !! k) in
              let cards := reposition_cards segSet c (seg_cards seg) in
              let a' := detach n a in
              {| USER_UID := USER_UID a';
                 dom := update_segment si (set_cards cards) (dom a');
                 frags := frags a';
                 starredMap := starredMap a';
                 cardSegmentMap := cardSegmentMap a'; raf := raf a' |}
          end
      end
  end.

(** The callback of [reorderSegment], line 327: the children of the
    fragment go to the end of the segment and the fragment is left empty. *)
Definition appendFragment (si fi : nat) (a : app) : app :=
  let frag := default [] (frags a !! fi) in
  {| USER_UID := USER_UID a;
     dom := update_segment si (λ s, set_cards (seg_cards s ++ frag) s) (dom a);
     frags := <[fi := []]> (frags a);
     starredMap := starredMap a; cardSegmentMap := cardSegmentMap a;
     raf := raf a |}.

(** The callback of [init], lines 134-137: every segment that owns a card,
    each once. *)
Definition reorderAll (a : app) : app :=
  let owners := map_to_list (cardSegmentMap a) in
  let segs := List.filter (λ si, bool_decide (si ∈ owners.*2))
                          (seq 0 (length (segments (dom a)))) in
  foldl (λ a si, reorderSegment si a) a segs.

Definition run_task (t : task) (a : app) : app :=
  match t with
  | ReorderAll => reorderAll a
  | AppendFragment si fi => appendFragment si fi a
  | Reposition n => repositionCard_callback n a
  end.

(** One animation frame: the callbacks queued so far run in the order they
    were queued; what they queue waits for the frame after. *)
Definition animationFrame (a : app) : app :=
  foldl (λ a t, run_task t a)
        {| USER_UID := USER_UID a; dom := dom a; frags := frags a;
           starredMap := starredMap a; cardSegmentMap := cardSegmentMap a;
           raf := [] |}
        (raf a).

(** ** STEP 5: the page, from load to load *)

(** [page] is the running application; there is none before the first
    load and none when the script has stopped on an uncaught exception. *)
Record world := World {
  ls : storage;
  page : option app
}.

Inductive event :=
| PageLoad (e : page_env) (d : document) (quota_ok : bool)
| Click (n : nat) (confirm : bool) (quota_ok : bool)
    (* a click on the star control of card [n] *)
| AnimationFrame.

(** The top level of the script, lines 10-38, then [bootstrap]. *)
Definition page_load (e : page_env) (d : document) (quota_ok : bool)
    (s : storage) : world :=
  match resolve_USER_UID e (cached_uid s) with
  | Throws _ => {| ls := s; page := None |}
  | Returns uid =>
      let s' :=
        match uid_persist uid (cached_uid s) with
        | Some v => if quota_ok
                    then {| cached_uid := Some v; star_slots := star_slots s |}
                    else s
        | None => s
        end in
      {| ls := s'; page := Some (init uid d s') |}
  end.

Definition step (w : world) (ev : event) : world :=
  match ev with
  | PageLoad e d q => page_load e d q (ls w)
  | Click n confirm q =>
      match page w with
      | None => w
      | Some a =>
          let r := toggleStar n confirm a in
          {| ls := match t_saved r with
                   | Some v => Storage_set (USER_UID a) v q (ls w)
                   | None => ls w
                   end;
             page := Some (t_app r) |}
      end
  | AnimationFrame =>
      {| ls := ls w; page := animationFrame <$> page w |}
  end.

Definition run (evs : list event) (w : world) : world := foldl step w evs.

(** A browser in which the script has never run: no star slot yet. *)
Definition fresh (cached : option string) : world :=
  {| ls := {| cached_uid := cached; star_slots := ∅ |}; page := None |}.

(** ** The listener for storage changes (lines 41-55) *)

(** A [storage] event from another tab: the key that changed ([null] after
    [clear()]) and its new value ([null] when the key was removed). *)
Record storage_event := StorageEvent {
  ev_key : option string;
  ev_newValue : option string
}.

(** The listener, for the identity [uid] of this page. The boolean tells
    whether [setTimeout(() => window.location.reload(), 80)] was reached:
    the [setItem] before it can throw, and the [catch] then ends the
    listener. *)
Definition on_storage (ev : storage_event) (uid : string) (quota_ok : bool)
    (s : storage) : storage * bool :=
  if bool_decide (ev_key ev = Some "openrootUserUID")
     || bool_decide (ev_key ev = Some "openroot_current_uid")
  then
    match ev_newValue ev with
    | Some newUid =>
        if truthy newUid then
          if bool_decide (newUid ≠ uid) then
            if quota_ok
            then ({| cached_uid := Some newUid; star_slots := star_slots s |}, true)
            else (s, false)
          else (s, false)
        else (s, false)
    | None => (s, false)
    end
  else (s, false).

(** ** initJobFilters (lines 370-395) *)

(** A [.job-card] as the filter sees it: [dataset.type] and whether the
    class [hidden] is set. *)
Record job_card := JobCard {
  job_type : option string;
  job_hidden : bool
}.

(** A [.filter-btn] of the [.job-filters] container: [dataset.filter] and
    whether the class [active] is set. *)
Record filter_btn := FilterBtn {
  data_filter : option string;
  filter_active : bool
}.

(** [filterButtons] and [jobCards], as collected when the listener is
    installed. *)
Record filter_ui := FilterUI {
  filter_buttons : list filter_btn;
  job_cards : list job_card
}.

(** [btn.dataset.filter ?? "all"] *)
Definition filter_of (b : filter_btn) : string := default "all" (data_filter b).

(** [card.dataset.type || ""] *)
Definition type_of (c : job_card) : string :=
  default "" (js_or (job_type c) (Some "")).

(** [!(filter === "all" || type === filter)] *)
Definition hide_for (filter : string) (c : job_card) : bool :=
  negb (String.eqb filter "all" || String.eqb (type_of c) filter).

Definition set_active (v : bool) (b : filter_btn) : filter_btn :=
  {| data_filter := data_filter b; filter_active := v |}.

Definition set_hidden (v : bool) (c : job_card) : job_card :=
  {| job_type := job_type c; job_hidden := v |}.

(** The click listener of the container, for a click inside the [i]-th
    filter button; a click outside every button does nothing. *)
Definition on_filter_click (i : nat) (u : filter_ui) : filter_ui :=
  match filter_buttons u !! i with
  | None => u
  | Some b =>
      let filter := filter_of b in
      {| filter_buttons :=
           alter (set_active true) i (set_active false <$> filter_buttons u);
         job_cards := (λ c, set_hidden (hide_for filter c) c) <$> job_cards u |}
  end.

(** ** initMenu (lines 397-422) *)

(** An element of the page as the menu sees it: its [id], whether it has
    the class [section-container], whether it has the class [hidden]. *)
Record page_el := PageEl {
  el_id : option string;
  is_section : bool;
  el_hidden : bool
}.

Definition set_el_hidden (v : bool) (e : page_el) : page_el :=
  {| el_id := el_id e; is_section := is_section e; el_hidden := v |}.

(** [document.getElementById(id)]: the first element with that [id], as
    its position among the elements of the page. An empty [id] attribute
    gives an element no identifier, so the empty string finds nothing. *)
Definition getElementById (id : string) (els : list page_el) : option nat :=
  if decide (id = "") then None
  else fst <$> list_find (λ e, el_id e = Some id) els.

(** [sections.forEach((sec) => sec.classList.add("hidden"))] *)
Definition hide_sections (els : list page_el) : list page_el :=
  (λ e, if is_section e then set_el_hidden true e else e) <$> els.

(** The click listener of a [.menu-btn] whose [dataset.target] is
    [target]; a missing attribute is looked up as ["undefined"]. Without
    the element [mainSectionMenu] the listener stops on a [TypeError]
    before it has changed anything. *)
Definition on_menu_click (target : option string) (els : list page_el)
  : list page_el :=
  match getElementById (default "undefined" target) els with
  | None => els
  | Some t =>
      match getElementById "mainSectionMenu" els with
      | None => els
      | Some m =>
          alter (set_el_hidden false) t
            (hide_sections (alter (set_el_hidden true) m els))
      end
  end.

(** The click listener of a [.back-btn]. Without the element
    [mainSectionMenu] it stops on a [TypeError] once the sections are
    hidden. *)
Definition on_back_click (els : list page_el) : list page_el :=
  match getElementById "mainSectionMenu" els with
  | None => hide_sections els
  | Some m => alter (set_el_hidden false) m (hide_sections els)
  end.

(** * Vocabulary of the statements *)

(** ** The registry invariant *)

(** What every set of the registry satisfies while only the script writes
    the star slots: no member twice, at most [MAX_STARS] members, no empty
    identifier. *)
Definition set_ok (s : JSSet.t) : Prop :=
  NoDup s ∧ JSSet.size s ≤ MAX_STARS ∧ "" ∉ s.

Definition reg_ok (reg : gmap string JSSet.t) : Prop :=
  map_Forall (λ _ s, set_ok s) reg.

(** The set after lines 265-280, when the call is not abandoned. *)
Definition next_set (id : string) (segSet : JSSet.t) : JSSet.t :=
  flip id (if at_capacity id segSet then evict_oldest segSet else segSet).

(** Every star slot and the running registry satisfy the invariant. *)
Definition world_ok (w : world) : Prop :=
  map_Forall (λ _ p, reg_ok p) (star_slots (ls w)) ∧
  ∀ a, page w = Some a → reg_ok (starredMap a).

(** ** Orders, identities and views *)

Definition by_origIndex (x y : card) : Prop := origIndex x ≤ origIndex y.

(** The first candidate that is defined, that is, present and not empty. *)
Definition first_defined (l : list (option string)) : option string :=
  head (omap or_null l).

(** The identity in the words of the specification: the first defined
    value among the URL-decoded token of the query string (under [uid],
    then under [user]), the main site's token (persistent, then
    session-scoped), the cached token and the guest literal. The
    URL-decoded token of a name is the value the query parser gives for
    it, [url_uid] and [url_user]; nothing is decoded after that. *)
Definition identity_by_spec (e : page_env) (cached : option string) : string :=
  default guest_literal
    (first_defined [url_uid e; url_user e; main_local e; main_session e; cached]).

(** [c'] is the element [c] with the identifier [c] had, if it had one. *)
Definition keeps_id (c c' : card) : Prop :=
  node c' = node c ∧ (truthy_opt (data_id c) = true → data_id c' = data_id c).

(** [s'] has the segment identifier [s] had, if it had one, and its cards
    keep theirs. *)
Definition keeps_ids (s s' : segment) : Prop :=
  (truthy_opt (data_segId s) = true → data_segId s' = data_segId s) ∧
  Forall2 keeps_id (seg_cards s) (seg_cards s').

(** What the indexer has written on the cards of each segment: element,
    identifier, original index. *)
Definition indexed (a : app) : list (list (nat * option string * option nat)) :=
  (λ s, (λ c, (node c, data_id c, data_origIndex c)) <$> seg_cards s)
    <$> segments (dom a).

(** The original indices of the cards of each segment, in document order. *)
Definition layout (w : world) : option (list (list nat)) :=
  (λ a, (λ s, origIndex <$> seg_cards s) <$> segments (dom a)) <$> page w.

(** The set of a segment in the running application. *)
Definition stars (segId : string) (w : world) : option JSSet.t :=
  page w ≫= λ a, starredMap a !! segId.

(** ** Sample pages and visits *)

Definition plain_btn : star_btn :=
  {| cls_starred := false; aria_pressed := None; aria_label := None |}.

(** A card as the page's HTML has it: no identifier yet, one star control. *)
Definition html_card (n : nat) : card :=
  {| node := n; data_id := None; data_origIndex := None; data_url := None;
     btn := Some plain_btn |}.

(** A card of a sample page once it has been indexed. *)
Definition indexed_card (n : nat) (starred : bool) : card :=
  {| node := n; data_id := Some ("card-" +:+ pretty (S n));
     data_origIndex := Some n; data_url := None;
     btn := Some (updateStarAttr starred plain_btn) |}.

(** A page with one segment, [<div id="Top Tools" class="card-grid">], of
    [k] cards. *)
Definition grid (k : nat) : document :=
  {| segments := [ {| attr_id := Some "Top Tools"; className := "card-grid";
                      data_segId := None; seg_cards := html_card <$> seq 0 k |} ];
     loose_cards := [] |}.

(** No token in the URL and none from the main site. *)
Definition no_token : page_env :=
  {| url_uid := None; url_user := None; main_local := None; main_session := None |}.

(** A query string such as [?uid=%25] or [?uid=%]: [urlParams.get("uid")]
    is the one character [%]. *)
Definition percent_token : page_env :=
  {| url_uid := Some "%"; url_user := None;
     main_local := None; main_session := None |}.

(** A browser on [?uid=a%2520b%252Bc]: the token [a%20b%2Bc], encoded
    for the query string. Storage is accessible and the main site has left
    no token. *)
Definition twice_encoded : browser :=
  {| location_search := "?uid=a%2520b%252Bc"; storage_access := true;
     site_local := None; site_session := None |}.

(** A browser on [?uid=t]. *)
Definition on_uid (t : string) (access : bool) : browser :=
  {| location_search := "?uid=" +:+ t; storage_access := access;
     site_local := None; site_session := None |}.

Definition url_token (t : string) : page_env :=
  {| url_uid := Some t; url_user := None;
     main_local := None; main_session := None |}.

(** A page load followed by the two frames of the full reorder. *)
Definition load (d : document) : list event :=
  [PageLoad no_token d true; AnimationFrame; AnimationFrame].

(** The running application of a world that has one. *)
Definition app_of (w : world) : app :=
  default (init guest_literal (grid 0) (ls w)) (page w).

(** First visit: index 3 is starred, then index 1. Second visit: the page
    is loaded again. *)
Definition visit_3_then_1 : list event :=
  load (grid 5) ++ [Click 3 true true; Click 1 true true; AnimationFrame].

Definition visit_1_then_3 : list event :=
  load (grid 5) ++ [Click 1 true true; Click 3 true true; AnimationFrame].

(** The indices 0, 4 and 2 are starred in that order; then 2 is
    unstarred. *)
Definition visit_0_4_2 : list event :=
  load (grid 5) ++
  [Click 0 true true; Click 4 true true; Click 2 true true; AnimationFrame].

(** The same stars given in the order 0, 2, 4. *)
Definition visit_0_2_4 : list event :=
  load (grid 5) ++
  [Click 0 true true; Click 2 true true; Click 4 true true; AnimationFrame].

Definition unstar_2 : list event := [Click 2 true true; AnimationFrame].

(** A page with one segment of two cards,
    [<div class="card-grid" data-seg-id="__proto__">]. *)
Definition proto_grid : document :=
  {| segments := [ {| attr_id := None; className := "card-grid";
                      data_segId := Some "__proto__";
                      seg_cards := html_card <$> seq 0 2 |} ];
     loose_cards := [] |}.

(** A first visit of that page, on which the first card is starred. *)
Definition star_in_proto : list event :=
  load proto_grid ++ [Click 0 true true; AnimationFrame].

(** Seven cards; the first five are starred, in document order. *)
Definition five_stars : list event :=
  load (grid 7) ++
  [Click 0 true true; Click 1 true true; Click 2 true true;
   Click 3 true true; Click 4 true true].

Definition full_segment : world := run five_stars (fresh None).

(** A page of three cards on which index 1 has been starred, so that its
    card now comes first. *)
Definition starred_1_of_3 : world :=
  run (load (grid 3) ++ [Click 1 true true; AnimationFrame]) (fresh None).

(** The five cards of [grid 5] after indexing, in document order. *)
Definition five_cards : list card := (λ n, indexed_card n false) <$> seq 0 5.

(** The cards of [grid 5] in the order [0,4,2,1,3], with the stars of
    the indices 0 and 4 shown and the one of index 2 just removed. *)
Definition cards_0_4_2_1_3 : list card :=
  [indexed_card 0 true; indexed_card 4 true; indexed_card 2 false;
   indexed_card 1 false; indexed_card 3 false].

(** ** Events of a visit *)

(** A page load, as opposed to what happens on a loaded page. *)
Definition is_load (ev : event) : bool :=
  match ev with
  | PageLoad _ _ _ => true
  | _ => false
  end.

(** The identifier the indexer gives to the [k]-th card without one. *)
Definition auto_id (k : nat) : option string := Some ("card-" +:+ pretty k).

(** The card has no usable [data-id] of its own. *)
Definition unset_id (c : card) : Prop := truthy_opt (data_id c) = false.

(** The identifiers of the cards of the segments, in document order. *)
Definition segment_card_ids (d : document) : list (option string) :=
  data_id <$> concat (seg_cards <$> segments d).

(** [segSet.has(c.dataset.id)], as [repositionCard] asks it. *)
Definition shown_starred (segSet : JSSet.t) (c : card) : bool :=
  JSSet.has_opt (data_id c) segSet.

(** The layout both reorderings aim at: the starred cards in front, then
    the other cards by ascending original index. *)
Definition well_laid (segSet : JSSet.t) (cards : list card) : Prop :=
  ∃ front back,
    cards = front ++ back ∧
    Forall (λ x, shown_starred segSet x = true) front ∧
    Forall (λ x, shown_starred segSet x = false) back ∧
    StronglySorted by_origIndex back.

(** Every character of the string passes the test. *)
Fixpoint all_chars (p : ascii → bool) (s : string) : bool :=
  match s with
  | EmptyString => true
  | String c r => p c && all_chars p r
  end.

(** A character of ASCII. *)
Definition ascii_char (c : ascii) : bool := (N_of_ascii c <? 128)%N.

(** Neither white space nor an upper-case ASCII letter. *)
Definition plain_char (c : ascii) : bool :=
  negb (is_space c) && negb (between 65 90 (N_of_ascii c)).

Definition not_percent (c : ascii) : bool := negb (Ascii.eqb c "%").

(** ** More sample pages *)

(** A new [OpenrootApp] on a page, before [init]. *)
Definition blank_app (d : document) : app :=
  {| USER_UID := guest_literal; dom := d; frags := []; starredMap := ∅;
     cardSegmentMap := ∅; raf := [] |}.

(** The [i]-th segment of the page of an application. *)
Definition seg_at (a : app) (i : nat) : segment :=
  default {| attr_id := None; className := ""; data_segId := None;
             seg_cards := [] |}
          (segments (dom a) !! i).

(** The application right after [init], before any frame. *)
Definition just_loaded (d : document) : app :=
  app_of (run [PageLoad no_token d true] (fresh None)).

(** The application once the page is loaded and laid out. *)
Definition laid_out (d : document) : app :=
  app_of (run (load d) (fresh None)).

(** Another tab has cached the identity [bob]. *)
Definition bob_elsewhere : storage_event :=
  {| ev_key := Some "openroot_current_uid"; ev_newValue := Some "bob" |}.

(** Three filter buttons ([all], [remote], one without filter) and four
    job cards. *)
Definition sample_filters : filter_ui :=
  {| filter_buttons :=
       [ {| data_filter := Some "all"; filter_active := true |};
         {| data_filter := Some "remote"; filter_active := false |};
         {| data_filter := None; filter_active := false |} ];
     job_cards :=
       [ {| job_type := Some "remote"; job_hidden := false |};
         {| job_type := Some "office"; job_hidden := false |};
         {| job_type := None; job_hidden := false |};
         {| job_type := Some "remote"; job_hidden := true |} ] |}.

(** The menu, two sections and a footer. *)
Definition sample_page : list page_el :=
  [ {| el_id := Some "mainSectionMenu"; is_section := false; el_hidden := false |};
    {| el_id := Some "jobs"; is_section := true; el_hidden := true |};
    {| el_id := Some "tools"; is_section := true; el_hidden := true |};
    {| el_id := Some "footer"; is_section := false; el_hidden := false |} ].

(** ** Tactics *)

Ltac by_computation := vm_compute; reflexivity.
Ltac decide_by_computation := apply (bool_decide_eq_true_1 _); vm_compute; reflexivity.

(** * Properties *)

(** ** Insertion-ordered sets *)

Section jsset_facts.
Implicit Types (x y : string) (s : JSSet.t).

Lemma has_true x s : JSSet.has x s = true ↔ x ∈ s.
Proof. unfold JSSet.has. apply bool_decide_eq_true. Qed.

Lemma has_false x s : JSSet.has x s = false ↔ x ∉ s.
Proof. unfold JSSet.has. apply bool_decide_eq_false. Qed.

Lemma elem_of_delete y x s : y ∈ JSSet.delete x s ↔ y ≠ x ∧ y ∈ s.
Proof. unfold JSSet.delete. by rewrite list_elem_of_filter. Qed.

Lemma NoDup_delete x s : NoDup s → NoDup (JSSet.delete x s).
Proof. apply NoDup_filter. Qed.

Lemma length_delete x s : length (JSSet.delete x s) ≤ length s.
Proof. apply length_filter. Qed.

Lemma delete_head x s : NoDup (x :: s) → JSSet.delete x (x :: s) = s.
Proof.
  intros Hnd. apply NoDup_cons in Hnd as [Hx _].
  unfold JSSet.delete. rewrite filter_cons_False by (intros H; by apply H).
  induction s as [|y s IH]; [done|].
  apply not_elem_of_cons in Hx as [Hne Hx].
  rewrite filter_cons_True by congruence. f_equal. by apply IH.
Qed.

Lemma delete_absent x s : x ∉ s → JSSet.delete x s = s.
Proof.
  intros Hx. unfold JSSet.delete.
  induction s as [|y s IH]; [done|].
  apply not_elem_of_cons in Hx as [Hne Hx].
  rewrite filter_cons_True by congruence. f_equal. by apply IH.
Qed.

Lemma add_absent x s : x ∉ s → JSSet.add x s = s ++ [x].
Proof. intros Hx. unfold JSSet.add. by apply has_false in Hx as ->. Qed.

Lemma add_present x s : x ∈ s → JSSet.add x s = s.
Proof. intros Hx. unfold JSSet.add. by apply has_true in Hx as ->. Qed.

Lemma NoDup_add x s : NoDup s → NoDup (JSSet.add x s).
Proof.
  intros Hnd. destruct (decide (x ∈ s)) as [Hx|Hx].
  - by rewrite add_present.
  - rewrite add_absent by done. apply NoDup_app. split_and!; [done| |].
    + intros y Hy ->%list_elem_of_singleton. done.
    + apply NoDup_singleton.
Qed.

Lemma elem_of_add y x s : y ∈ JSSet.add x s ↔ y = x ∨ y ∈ s.
Proof.
  destruct (decide (x ∈ s)) as [Hx|Hx].
  - rewrite add_present by done. split; [tauto|]. intros [->|?]; done.
  - rewrite add_absent by done. rewrite elem_of_app, list_elem_of_singleton.
    tauto.
Qed.

Lemma of_list_from acc (l : list string) :
  NoDup (acc ++ l) → foldl (λ s x, JSSet.add x s) acc l = acc ++ l.
Proof.
  revert acc. induction l as [|x l IH]; intros acc Hnd; simpl.
  - by rewrite app_nil_r.
  - rewrite add_absent.
    + rewrite IH; rewrite <- app_assoc; done.
    + apply NoDup_app in Hnd as (_ & Hd & _). intros Hx.
      apply (Hd x Hx). left.
Qed.

(** [new Set(Array.from(set))] has the members of [set] in the same order. *)
Lemma of_list_to_list s : NoDup s → JSSet.of_list (JSSet.to_list s) = s.
Proof. intros Hnd. unfold JSSet.of_list, JSSet.to_list. by apply of_list_from. Qed.

Lemma NoDup_of_list_from acc (l : list string) :
  NoDup acc → NoDup (foldl (λ s x, JSSet.add x s) acc l).
Proof.
  revert acc. induction l as [|x l IH]; intros acc Hnd; simpl; [done|].
  apply IH. by apply NoDup_add.
Qed.

Lemma NoDup_of_list (l : list string) : NoDup (JSSet.of_list l).
Proof. apply NoDup_of_list_from. constructor. Qed.

Lemma elem_of_of_list_from y acc (l : list string) :
  y ∈ foldl (λ s x, JSSet.add x s) acc l ↔ y ∈ acc ∨ y ∈ l.
Proof.
  revert acc. induction l as [|x l IH]; intros acc; simpl.
  - rewrite elem_of_nil. tauto.
  - rewrite IH, elem_of_add, elem_of_cons. tauto.
Qed.

Lemma truthy_ne x : truthy x = true ↔ x ≠ "".
Proof.
  unfold truthy. rewrite negb_true_iff. split.
  - intros H ->. done.
  - intros H. apply String.eqb_neq. done.
Qed.

End jsset_facts.

(** ** The registry invariant *)

Lemma set_ok_empty : set_ok JSSet.empty.
Proof.
  unfold set_ok, JSSet.empty, JSSet.size, MAX_STARS. simpl.
  split_and!; [constructor | lia | apply not_elem_of_nil].
Qed.

Lemma evict_oldest_cons o rest :
  NoDup (o :: rest) → o ≠ "" → evict_oldest (o :: rest) = rest.
Proof.
  intros Hnd Ho. unfold evict_oldest. simpl.
  apply truthy_ne in Ho as ->. by apply delete_head.
Qed.

Lemma flip_absent id s : id ∉ s → flip id s = s ++ [id].
Proof.
  intros Hid. unfold flip. apply has_false in Hid as Hh. rewrite Hh.
  by apply add_absent.
Qed.

Lemma flip_present id s : id ∈ s → flip id s = JSSet.delete id s.
Proof. intros Hid. unfold flip. by apply has_true in Hid as ->. Qed.

Lemma next_set_ok id s : id ≠ "" → set_ok s → set_ok (next_set id s).
Proof.
  intros Hid (Hnd & Hsz & Hne). unfold next_set, at_capacity.
  unfold set_ok, JSSet.size, MAX_STARS in *.
  destruct (decide (id ∈ s)) as [Hin|Hin].
  - apply has_true in Hin as Hh. rewrite Hh. cbn [negb andb].
    rewrite flip_present by done. split_and!.
    + by apply NoDup_delete.
    + pose proof (length_delete id s). lia.
    + rewrite elem_of_delete. tauto.
  - apply has_false in Hin as Hh. rewrite Hh. cbn [negb andb].
    destruct (5 <=? length s) eqn:Hfull.
    + apply Nat.leb_le in Hfull.
      destruct s as [|o rest]; [simpl in Hfull; lia|].
      apply not_elem_of_cons in Hne as [Ho Hne].
      apply not_elem_of_cons in Hin as [Hio Hin].
      rewrite evict_oldest_cons by done.
      rewrite flip_absent by done.
      apply NoDup_cons in Hnd as [_ Hnd]. simpl in Hsz. split_and!.
      * apply NoDup_app. split_and!; [done| |apply NoDup_singleton].
        intros y Hy ->%list_elem_of_singleton. done.
      * rewrite length_app. simpl. lia.
      * rewrite elem_of_app, list_elem_of_singleton. intros [?|?]; congruence.
    + apply Nat.leb_gt in Hfull. rewrite flip_absent by done. split_and!.
      * apply NoDup_app. split_and!; [done| |apply NoDup_singleton].
        intros y Hy ->%list_elem_of_singleton. done.
      * rewrite length_app. simpl. lia.
      * rewrite elem_of_app, list_elem_of_singleton. intros [?|?]; congruence.
Qed.

Lemma toggle_target_truthy a n c id segId :
  toggle_target a n = Some (c, id, segId) → id ≠ "".
Proof.
  unfold toggle_target. intros H.
  destruct (find_card n (dom a)) as [c0|]; simpl in H; [|done].
  destruct (btn c0); simpl in H; [|done].
  destruct (data_id c0) as [i|]; simpl in H; [|done].
  destruct (truthy i) eqn:Ht; [|done].
  apply truthy_ne in Ht.
  destruct (cardSegmentMap a !! i); simpl in H; [|done].
  destruct (segments (dom a) !! _); simpl in H; [|done].
  destruct (data_segId _); simpl in H; [|done].
  by simplify_eq.
Qed.

(** The registry after a call of [toggleStar], case by case. *)
Lemma toggleStar_starredMap n confirm a :
  starredMap (t_app (toggleStar n confirm a)) =
  match toggle_target a n with
  | None => starredMap a
  | Some (_, id, segId) =>
      let reg0 := match starredMap a !! segId with
                  | Some _ => starredMap a
                  | None => <[segId := JSSet.empty]> (starredMap a)
                  end in
      let segSet := default JSSet.empty (reg0 !! segId) in
      if at_capacity id segSet && negb confirm then reg0
      else <[segId := next_set id segSet]> reg0
  end.
Proof.
  unfold toggleStar. destruct (toggle_target a n) as [[[c id] segId]|]; [|done].
  simpl. by destruct (at_capacity _ _ && negb confirm).
Qed.

Lemma toggleStar_starredMap_Some n confirm a c id segId s :
  toggle_target a n = Some (c, id, segId) →
  starredMap a !! segId = Some s →
  starredMap (t_app (toggleStar n confirm a)) =
  if at_capacity id s && negb confirm then starredMap a
  else <[segId := next_set id s]> (starredMap a).
Proof.
  intros Ht Hs. rewrite toggleStar_starredMap, Ht, Hs.
  cbn beta iota zeta. by rewrite Hs.
Qed.

Lemma toggleStar_reg_ok n confirm a :
  reg_ok (starredMap a) → reg_ok (starredMap (t_app (toggleStar n confirm a))).
Proof.
  intros Hok. rewrite toggleStar_starredMap.
  destruct (toggle_target a n) as [[[c id] segId]|] eqn:Ht; [|done].
  apply toggle_target_truthy in Ht. simpl.
  set (reg0 := match starredMap a !! segId with
               | Some _ => starredMap a
               | None => <[segId:=JSSet.empty]> (starredMap a)
               end).
  assert (reg_ok reg0) as Hok0.
  { subst reg0. destruct (starredMap a !! segId); [done|].
    apply map_Forall_insert_2; [apply set_ok_empty | done]. }
  assert (set_ok (default JSSet.empty (reg0 !! segId))) as Hset.
  { destruct (reg0 !! segId) as [s|] eqn:Hs; simpl.
    - by apply (Hok0 _ _ Hs).
    - apply set_ok_empty. }
  destruct (at_capacity _ _ && negb confirm); [done|].
  apply map_Forall_insert_2; [|done]. by apply next_set_ok.
Qed.

(** ** The registry through a page's life *)

Lemma snapshot_id reg : snapshot reg = delete "__proto__" reg.
Proof. unfold snapshot, JSSet.to_list. apply map_fmap_id. Qed.

(** Hydrating what the script has written gives the same sets back. *)
Lemma hydrate_reg_ok saved : reg_ok saved → hydrate saved = saved.
Proof.
  intros Hok. apply map_eq. intros k. unfold hydrate. rewrite lookup_fmap.
  destruct (saved !! k) as [s|] eqn:Hs; simpl; [|done].
  f_equal. apply (of_list_to_list s). by apply (Hok _ _ Hs).
Qed.

(** [setupCards] only adds empty sets to the registry. *)
Lemma setup_segments_Forall (P : JSSet.t → Prop) segs si autoId csm reg :
  P JSSet.empty →
  map_Forall (λ _, P) reg →
  map_Forall (λ _, P) (setup_segments si segs autoId csm reg).2.
Proof.
  intros HP. revert si autoId csm reg.
  induction segs as [|s segs IH]; intros si autoId csm reg Hok; simpl; [done|].
  destruct (setup_seg_cards si 0 (seg_cards s) autoId csm) as [[cs autoId'] csm'].
  match goal with
  | |- context [setup_segments ?i segs ?x ?m ?r] =>
      specialize (IH i x m r); destruct (setup_segments i segs x m r) as [[? ?] ?]
  end.
  simpl in *. apply IH.
  destruct (reg !! assign_segId s); [done|].
  by apply map_Forall_insert_2.
Qed.

Lemma setupCards_Forall (P : JSSet.t → Prop) a :
  P JSSet.empty →
  map_Forall (λ _, P) (starredMap a) →
  map_Forall (λ _, P) (starredMap (setupCards a)).
Proof.
  intros HP Hok. unfold setupCards.
  pose proof (setup_segments_Forall P (segments (dom a)) 0 0
                (cardSegmentMap a) _ HP Hok) as H.
  destruct (setup_segments _ _ _ _ _) as [[? ?] ?]. done.
Qed.

Lemma setupCards_reg_ok a : reg_ok (starredMap a) → reg_ok (starredMap (setupCards a)).
Proof. apply setupCards_Forall, set_ok_empty. Qed.

Lemma init_starredMap uid d s :
  starredMap (init uid d s) =
  starredMap (setupCards {| USER_UID := uid; dom := d; frags := [];
                            starredMap := hydrate (Storage_get uid ∅ s);
                            cardSegmentMap := ∅; raf := [] |}).
Proof. done. Qed.

Lemma init_USER_UID uid d s : USER_UID (init uid d s) = uid.
Proof.
  unfold init, requestAnimationFrame, applyInitialStarState, setupCards. simpl.
  by destruct (setup_segments _ _ _ _ _) as [[? ?] ?].
Qed.

Lemma foldl_keeps {A B C} (f : A → B → A) (g : A → C) (l : list B) (a : A) :
  (∀ a x, g (f a x) = g a) → g (foldl f a l) = g a.
Proof.
  intros Hf. revert a. induction l as [|x l IH]; intros a; simpl; [done|].
  by rewrite IH.
Qed.

Lemma reorderSegment_starredMap si a :
  starredMap (reorderSegment si a) = starredMap a.
Proof.
  unfold reorderSegment. destruct (segments (dom a) !! si); [|done].
  by destruct (length _ <=? 1).
Qed.

Lemma run_task_starredMap t a : starredMap (run_task t a) = starredMap a.
Proof.
  destruct t as [|si fi|n]; simpl.
  - unfold reorderAll. apply (foldl_keeps (λ a si, reorderSegment si a)).
    intros; apply reorderSegment_starredMap.
  - done.
  - unfold repositionCard_callback. destruct (find_node n a) as [c|]; [|done].
    destruct (data_id c ≫= _); [|done].
    by destruct (segments (dom a) !! _).
Qed.

(** Animation frames only move cards. *)
Lemma animationFrame_starredMap a : starredMap (animationFrame a) = starredMap a.
Proof.
  unfold animationFrame.
  rewrite (foldl_keeps (λ a t, run_task t a) starredMap); [done|].
  intros; apply run_task_starredMap.
Qed.

Lemma fresh_ok cached : world_ok (fresh cached).
Proof. split; [apply map_Forall_empty | done]. Qed.

Lemma Storage_get_ok uid s :
  map_Forall (λ _ p, reg_ok p) (star_slots s) → reg_ok (Storage_get uid ∅ s).
Proof.
  intros Hs. unfold Storage_get.
  destruct (star_slots s !! getStorageKey uid) as [p|] eqn:Hp; simpl.
  - by apply (Hs _ _ Hp).
  - apply map_Forall_empty.
Qed.

Lemma step_ok w ev : world_ok w → world_ok (step w ev).
Proof.
  intros [Hs Ha]. destruct ev as [e d q|n confirm q|]; simpl.
  - unfold page_load.
    destruct (resolve_USER_UID e (cached_uid (ls w))) as [uid|msg]; [|by split].
    set (s' := match uid_persist uid (cached_uid (ls w)) with
               | Some v => if q then _ else ls w
               | None => ls w
               end).
    assert (star_slots s' = star_slots (ls w)) as Hslots.
    { subst s'. destruct (uid_persist _ _); [|done]. by destruct q. }
    split; simpl; [by rewrite Hslots|].
    intros a [= <-]. rewrite init_starredMap. apply setupCards_reg_ok. simpl.
    rewrite hydrate_reg_ok; apply Storage_get_ok; by rewrite Hslots.
  - destruct (page w) as [a|] eqn:Hp; [|by split; [|rewrite Hp]].
    pose proof (toggleStar_reg_ok n confirm a (Ha a eq_refl)) as Hok.
    split; simpl; [|by intros ? [= <-]].
    destruct (t_saved (toggleStar n confirm a)) as [v|] eqn:Hv; [|done].
    unfold Storage_set. destruct q; [|done]. simpl.
    apply map_Forall_insert_2; [|done].
    unfold toggleStar in Hv, Hok.
    destruct (toggle_target a n) as [[[c id] segId]|]; [|done].
    destruct (at_capacity _ _ && negb confirm); [done|].
    simpl in Hv, Hok. injection Hv as <-. rewrite snapshot_id.
    by apply map_Forall_delete.
  - split; [done|]. simpl. intros a.
    destruct (page w) as [a0|] eqn:Hp; simpl; [|done].
    intros [= <-]. rewrite animationFrame_starredMap. by apply Ha.
Qed.

Lemma run_ok evs w : world_ok w → world_ok (run evs w).
Proof.
  unfold run. revert w. induction evs as [|ev evs IH]; intros w Hw; simpl; [done|].
  apply IH. by apply step_ok.
Qed.

(** C1. Whatever happens in a browser where only this script writes the
    star slots (page loads under any identity and with any document, clicks
    on star controls with any answer to the confirmation, failed writes,
    animation frames), no segment's starred set ever has more than
    [MAX_STARS] = 5 members. *)
Theorem star_capacity_invariant (cached : option string) (evs : list event)
    (a : app) (segId : string) (segSet : JSSet.t) :
  page (run evs (fresh cached)) = Some a →
  starredMap a !! segId = Some segSet →
  JSSet.size segSet ≤ MAX_STARS.
Proof.
  intros Hp Hs.
  destruct (run_ok evs (fresh cached) (fresh_ok cached)) as [_ Ha].
  by apply (Ha a Hp _ _ Hs).
Qed.

(** ** The toggle *)

Lemma at_capacity_true id s :
  id ∉ s → MAX_STARS ≤ JSSet.size s → at_capacity id s = true.
Proof.
  intros Hid Hsz. unfold at_capacity. apply has_false in Hid as ->.
  cbn [negb andb]. by apply Nat.leb_le.
Qed.

(** The set after a confirmed eviction from a full set. *)
Lemma next_set_full id o rest :
  set_ok (o :: rest) →
  MAX_STARS ≤ JSSet.size (o :: rest) →
  id ∉ o :: rest →
  next_set id (o :: rest) = rest ++ [id] ∧ o ∉ rest ++ [id].
Proof.
  intros (Hnd & _ & Hne) Hfull Hid. split.
  - unfold next_set. rewrite at_capacity_true by done.
    apply not_elem_of_cons in Hne as [Ho _].
    rewrite evict_oldest_cons by done.
    apply not_elem_of_cons in Hid as [_ Hid]. by apply flip_absent.
  - apply NoDup_cons in Hnd as [Ho _]. apply not_elem_of_cons in Hid as [Hio _].
    rewrite elem_of_app, list_elem_of_singleton. intros [?|?]; congruence.
Qed.

(** C2. In a browser where only this script writes the star slots: when
    a click asks to star a card that is not in its segment's set, the set
    holds 5 identifiers and the user confirms, the earliest-inserted
    identifier, and no other, leaves the set and the card's identifier is
    added last; the other segments keep their sets. *)
Theorem confirm_evicts_earliest (cached : option string) (evs : list event)
    (a : app) (n : nat) (c : card) (id segId o : string) (rest : list string) :
  page (run evs (fresh cached)) = Some a →
  toggle_target a n = Some (c, id, segId) →
  starredMap a !! segId = Some (o :: rest) →
  JSSet.size (o :: rest) = MAX_STARS →
  id ∉ o :: rest →
  let after := t_app (toggleStar n true a) in
  starredMap after !! segId = Some (rest ++ [id]) ∧
  (o ∉ rest ++ [id]) ∧
  ∀ k, k ≠ segId → starredMap after !! k = starredMap a !! k.
Proof.
  intros Hp Ht Hs Hsz Hid after. subst after.
  destruct (run_ok evs (fresh cached) (fresh_ok cached)) as [_ Ha].
  pose proof (Ha a Hp _ _ Hs) as Hok.
  assert (MAX_STARS ≤ JSSet.size (o :: rest)) as Hfull by (by rewrite Hsz).
  destruct (next_set_full id o rest Hok Hfull Hid) as [Hnext Hout].
  rewrite (toggleStar_starredMap_Some _ _ _ _ _ _ _ Ht Hs), andb_false_r.
  rewrite Hnext. split_and!.
  - apply lookup_insert_eq.
  - done.
  - intros k Hk. by rewrite lookup_insert_ne.
Qed.

(** C3. When a click asks to star a card that is not in its segment's
    set, the set holds 5 identifiers or more and the user declines, the
    call returns with the application as it was (every set of the
    registry, the document, the frame queue) and without calling
    [Storage.set]; the storage is as before. *)
Theorem decline_changes_nothing (w : world) (a : app) (n : nat) (c : card)
    (id segId : string) (segSet : JSSet.t) (quota_ok : bool) :
  page w = Some a →
  toggle_target a n = Some (c, id, segId) →
  starredMap a !! segId = Some segSet →
  MAX_STARS ≤ JSSet.size segSet →
  id ∉ segSet →
  toggleStar n false a = {| t_app := a; t_saved := None |} ∧
  step w (Click n false quota_ok) = w.
Proof.
  intros Hp Ht Hs Hsz Hid.
  assert (toggleStar n false a = {| t_app := a; t_saved := None |}) as Heq.
  { unfold toggleStar. rewrite Ht, Hs. cbn beta iota zeta. rewrite Hs.
    change (default JSSet.empty (Some segSet)) with segSet.
    rewrite at_capacity_true by done. simpl. by destruct a. }
  split; [done|]. simpl. rewrite Hp, Heq. simpl. destruct w; simpl in *.
  by rewrite Hp.
Qed.

(** ** Round trip through the storage *)

Lemma NoDup_evict_oldest s : NoDup s → NoDup (evict_oldest s).
Proof.
  intros Hnd. unfold evict_oldest. destruct (JSSet.first s) as [o|]; [|done].
  destruct (truthy o); [by apply NoDup_delete | done].
Qed.

Lemma NoDup_next_set id s : NoDup s → NoDup (next_set id s).
Proof.
  intros Hnd. unfold next_set, flip.
  set (s1 := if at_capacity id s then evict_oldest s else s).
  assert (NoDup s1) as Hnd1.
  { subst s1. destruct (at_capacity id s); [by apply NoDup_evict_oldest | done]. }
  destruct (JSSet.has id s1); [by apply NoDup_delete | by apply NoDup_add].
Qed.

Lemma toggleStar_NoDup n confirm a :
  map_Forall (λ _, NoDup) (starredMap a) →
  map_Forall (λ _, NoDup) (starredMap (t_app (toggleStar n confirm a))).
Proof.
  intros Hok. rewrite toggleStar_starredMap.
  destruct (toggle_target a n) as [[[c id] segId]|] eqn:Ht; [|done]. simpl.
  set (reg0 := match starredMap a !! segId with
               | Some _ => starredMap a
               | None => <[segId:=JSSet.empty]> (starredMap a)
               end).
  assert (map_Forall (λ _, NoDup) reg0) as Hok0.
  { subst reg0. destruct (starredMap a !! segId); [done|].
    apply map_Forall_insert_2; [constructor | done]. }
  destruct (at_capacity _ _ && negb confirm); [done|].
  apply map_Forall_insert_2; [|done]. apply NoDup_next_set.
  destruct (reg0 !! segId) as [s|] eqn:Hs; simpl; [|constructor].
  by apply (Hok0 _ _ Hs).
Qed.

(** The sets of a running application never hold a member twice,
    whatever the storage held when the page was loaded. *)
Lemma run_NoDup evs w :
  (∀ a, page w = Some a → map_Forall (λ _, NoDup) (starredMap a)) →
  ∀ a, page (run evs w) = Some a → map_Forall (λ _, NoDup) (starredMap a).
Proof.
  unfold run. revert w. induction evs as [|ev evs IH]; intros w Hw; simpl; [done|].
  apply IH. clear IH. destruct ev as [e d q|n confirm q|]; simpl.
  - unfold page_load.
    destruct (resolve_USER_UID e (cached_uid (ls w))) as [uid|msg]; [|done].
    simpl. intros a [= <-]. rewrite init_starredMap.
    apply setupCards_Forall; [constructor|]. simpl.
    unfold hydrate. intros k s. rewrite lookup_fmap.
    destruct (_ !! k); simpl; [|done]. intros [= <-]. apply NoDup_of_list.
  - destruct (page w) as [a|] eqn:Hp; [|by rewrite Hp].
    simpl. intros ? [= <-]. apply toggleStar_NoDup. by apply Hw.
  - intros a. destruct (page w) as [a0|] eqn:Hp; simpl; [|done].
    intros [= <-]. rewrite animationFrame_starredMap. by apply Hw.
Qed.

Lemma toggleStar_saved n confirm a v :
  t_saved (toggleStar n confirm a) = Some v →
  v = snapshot (starredMap (t_app (toggleStar n confirm a))).
Proof.
  unfold toggleStar. destruct (toggle_target a n) as [[[c id] segId]|]; [|done].
  cbn beta iota zeta. destruct (at_capacity _ _ && negb confirm); [done|].
  simpl. by intros [= <-].
Qed.

Lemma Storage_get_set uid v fallback s :
  Storage_get uid fallback (Storage_set uid v true s) = v.
Proof. unfold Storage_get, Storage_set. simpl. by rewrite lookup_insert_eq. Qed.

Lemma hydrate_snapshot reg :
  map_Forall (λ _, NoDup) reg →
  hydrate (snapshot reg) = delete "__proto__" reg.
Proof.
  intros Hnd. rewrite snapshot_id. apply map_eq. intros k. unfold hydrate.
  rewrite lookup_fmap.
  destruct (delete "__proto__" reg !! k) as [s|] eqn:Hs; simpl; [|done].
  f_equal. apply of_list_to_list.
  apply lookup_delete_Some in Hs as [_ Hs]. by apply (Hnd _ _ Hs).
Qed.

(** C4 fails on the code. On a page whose segment has the identifier
    [__proto__] (say [<div class="card-grid" data-seg-id="__proto__">]),
    starring the first card puts [card-1] into the set of that segment, but
    the object written by [Storage.set] has no entry for the segment: the
    sets turned into lists and hydrated again give a registry without it,
    and the next page load shows the card unstarred. *)
Theorem proto_segment_lost_on_reload :
  stars "__proto__" (run star_in_proto (fresh None)) = Some ["card-1"] ∧
  star_slots (ls (run star_in_proto (fresh None)))
    !! getStorageKey guest_literal = Some ∅ ∧
  hydrate (snapshot (starredMap (app_of (run star_in_proto (fresh None)))))
    !! "__proto__" = None ∧
  stars "__proto__" (run (star_in_proto ++ load proto_grid) (fresh None))
    = Some [] ∧
  cls_starred <$>
    (find_card 0 (dom (app_of (run star_in_proto (fresh None)))) ≫= btn)
    = Some true ∧
  cls_starred <$>
    (find_card 0 (dom (app_of
       (run (star_in_proto ++ load proto_grid) (fresh None)))) ≫= btn)
    = Some false.
Proof. split_and!; by vm_compute. Qed.

(** What the round trip keeps. For every registry a running application
    can have (the page was loaded over any storage content and any clicks
    followed), turning the sets into lists as [toggleStar] does before it
    saves and building sets from those lists as [init] does gives the
    registry without the segment [__proto__]: every other segment has
    the same members in the same insertion order. The same holds of what a
    toggle hands to [Storage.set], read back by [Storage.get] and
    hydrated. *)
Theorem snapshot_hydrate_roundtrip (w0 : world) (evs : list event) (a : app) :
  page w0 = None →
  page (run evs w0) = Some a →
  hydrate (snapshot (starredMap a)) = delete "__proto__" (starredMap a) ∧
  (∀ segId, segId ≠ "__proto__" →
     hydrate (snapshot (starredMap a)) !! segId = starredMap a !! segId) ∧
  ∀ n confirm v s,
    t_saved (toggleStar n confirm a) = Some v →
    hydrate (Storage_get (USER_UID a) ∅ (Storage_set (USER_UID a) v true s))
      = delete "__proto__" (starredMap (t_app (toggleStar n confirm a))).
Proof.
  intros H0 Hp.
  assert (map_Forall (λ _, NoDup) (starredMap a)) as Hnd.
  { apply (run_NoDup evs w0); [|done]. intros ?. by rewrite H0. }
  split; [by apply hydrate_snapshot|].
  split.
  { intros segId Hne. rewrite hydrate_snapshot by done.
    by rewrite lookup_delete_ne. }
  intros n confirm v s Hv. rewrite Storage_get_set.
  rewrite (toggleStar_saved _ _ _ _ Hv).
  apply hydrate_snapshot. by apply toggleStar_NoDup.
Qed.

(** ** The star controls *)

Lemma all_cards_map_node n f d :
  all_cards (map_node n f d) =
  (λ c, if decide (node c = n) then f c else c) <$> all_cards d.
Proof.
  unfold all_cards, map_node. simpl. rewrite fmap_app. f_equal.
  induction (segments d) as [|s l IH]; simpl; [done|].
  rewrite fmap_app. by f_equal.
Qed.

Lemma find_other_node m n f (l : list card) :
  m ≠ n → (∀ c, node (f c) = node c) →
  List.find (λ c, bool_decide (node c = m))
            ((λ c, if decide (node c = n) then f c else c) <$> l) =
  List.find (λ c, bool_decide (node c = m)) l.
Proof.
  intros Hmn Hf. induction l as [|x l IH]; [done|].
  rewrite fmap_cons. cbn [List.find]. rewrite IH.
  destruct (decide (node x = n)) as [Hx|Hx]; [|done].
  assert (node x ≠ m) as Hxm by congruence.
  rewrite Hf. by rewrite (bool_decide_eq_false_2 _ Hxm).
Qed.

Lemma toggleStar_other_card a n m confirm :
  m ≠ n →
  find_card m (dom (t_app (toggleStar n confirm a))) = find_card m (dom a).
Proof.
  intros Hmn. unfold toggleStar.
  destruct (toggle_target a n) as [[[c id] segId]|]; [|done].
  cbn beta iota zeta. destruct (at_capacity _ _ && negb confirm); [done|].
  unfold find_card. simpl. rewrite all_cards_map_node.
  by apply find_other_node.
Qed.

Lemma toggle_target_card a n c id segId :
  toggle_target a n = Some (c, id, segId) →
  find_card n (dom a) = Some c ∧ data_id c = Some id.
Proof.
  unfold toggle_target. intros H.
  destruct (find_card n (dom a)) as [c0|]; simpl in H; [|done].
  destruct (btn c0); simpl in H; [|done].
  destruct (data_id c0) as [i|] eqn:Hi; simpl in H; [|done].
  destruct (truthy i); [|done].
  destruct (cardSegmentMap a !! i); simpl in H; [|done].
  destruct (segments (dom a) !! _); simpl in H; [|done].
  destruct (data_segId _); simpl in H; [|done].
  by simplify_eq.
Qed.

(** C10. A call of [toggleStar] for card [n] leaves every other card
    element as it was, the attributes of its star control included. In
    particular, when the call evicts the earliest-inserted identifier [o]
    of a full segment, each card that carries [o] keeps its control as it
    was (a control that showed the card as starred still does), although
    [o] is no longer in the set. *)
Theorem toggle_updates_one_control (a : app) (n : nat) (confirm : bool) :
  let after := t_app (toggleStar n confirm a) in
  (∀ m, m ≠ n → find_card m (dom after) = find_card m (dom a)) ∧
  (∀ cached evs c id segId o rest m cm,
     page (run evs (fresh cached)) = Some a →
     toggle_target a n = Some (c, id, segId) →
     starredMap a !! segId = Some (o :: rest) →
     JSSet.size (o :: rest) = MAX_STARS →
     id ∉ o :: rest →
     confirm = true →
     find_card m (dom a) = Some cm →
     data_id cm = Some o →
     find_card m (dom after) = Some cm ∧
     ∃ s, starredMap after !! segId = Some s ∧ o ∉ s).
Proof.
  intros after. split.
  - intros m Hmn. by apply toggleStar_other_card.
  - intros cached evs c id segId o rest m cm Hp Ht Hs Hsz Hid -> Hm Ho.
    destruct (run_ok evs (fresh cached) (fresh_ok cached)) as [_ Ha].
    pose proof (Ha a Hp _ _ Hs) as Hok.
    assert (MAX_STARS ≤ JSSet.size (o :: rest)) as Hfull by (by rewrite Hsz).
    destruct (next_set_full id o rest Hok Hfull Hid) as [Hnext Hout].
    split.
    2: { exists (rest ++ [id]). split; [|done]. subst after.
         rewrite (toggleStar_starredMap_Some _ _ _ _ _ _ _ Ht Hs), andb_false_r.
         rewrite Hnext. apply lookup_insert_eq. }
    subst after. rewrite toggleStar_other_card; [done|].
    intros ->. apply toggle_target_card in Ht as [Hc Hcid].
    apply not_elem_of_cons in Hid as [Hio _]. congruence.
Qed.

(** ** The full reorder *)

Lemma is_starred_ext s1 s2 c :
  (∀ x, x ∈ s1 ↔ x ∈ s2) → is_starred s1 c = is_starred s2 c.
Proof.
  intros H. unfold is_starred. destruct (data_id c) as [id|]; [|done].
  f_equal. unfold JSSet.has. apply bool_decide_ext, H.
Qed.

Lemma insert_by_origIndex_perm c l : insert_by_origIndex c l ≡ₚ c :: l.
Proof.
  induction l as [|x l IH]; simpl; [done|].
  destruct (origIndex c <=? origIndex x); [done|].
  rewrite IH. apply Permutation_swap.
Qed.

Lemma sort_by_origIndex_perm l : sort_by_origIndex l ≡ₚ l.
Proof.
  induction l as [|x l IH]; simpl; [done|].
  unfold sort_by_origIndex in *. simpl.
  by rewrite insert_by_origIndex_perm, IH.
Qed.

Lemma insert_by_origIndex_sorted c l :
  StronglySorted by_origIndex l →
  StronglySorted by_origIndex (insert_by_origIndex c l).
Proof.
  induction 1 as [|x l Hl IH Hx]; simpl.
  - repeat constructor.
  - destruct (origIndex c <=? origIndex x) eqn:Hc.
    + apply Nat.leb_le in Hc. constructor; [by constructor|].
      constructor; [done|].
      eapply Forall_impl; [exact Hx|]. unfold by_origIndex. intros; simpl in *. lia.
    + apply Nat.leb_gt in Hc. constructor; [done|].
      rewrite insert_by_origIndex_perm. constructor; [|done].
      unfold by_origIndex. lia.
Qed.

Lemma sort_by_origIndex_sorted l : StronglySorted by_origIndex (sort_by_origIndex l).
Proof.
  induction l as [|x l IH]; simpl; [constructor|].
  by apply insert_by_origIndex_sorted.
Qed.

(** C5, as the code has it. The full reorder puts the starred cards
    first, in the order they have in the document, and then the other
    cards by ascending original index; the order in which the stars were
    given plays no part. On a page of five cards with stars on the
    indices 1 and 3, the reload lays the segment out as [1,3,0,2,4],
    whether 1 or 3 was starred first. *)
Theorem full_reorder_layout (s1 s2 : JSSet.t) (cards : list card) :
  (∀ x, x ∈ s1 ↔ x ∈ s2) →
  reorder_layout s1 cards = reorder_layout s2 cards ∧
  (∃ rest,
     reorder_layout s1 cards = List.filter (is_starred s1) cards ++ rest ∧
     rest ≡ₚ List.filter (λ c, negb (is_starred s1 c)) cards ∧
     StronglySorted by_origIndex rest) ∧
  layout (run (visit_1_then_3 ++ load (grid 5)) (fresh None))
    = Some [[1; 3; 0; 2; 4]] ∧
  layout (run (visit_3_then_1 ++ load (grid 5)) (fresh None))
    = Some [[1; 3; 0; 2; 4]].
Proof.
  intros Heq. split_and!.
  - unfold reorder_layout. f_equal.
    + apply List.filter_ext. intros c. by apply is_starred_ext.
    + f_equal. apply List.filter_ext. intros c. f_equal. by apply is_starred_ext.
  - eexists. split; [reflexivity|]. split.
    + apply sort_by_origIndex_perm.
    + apply sort_by_origIndex_sorted.
  - vm_compute. reflexivity.
  - vm_compute. reflexivity.
Qed.

(** C5, as the claim has it, fails: index 3 was starred before index 1
    (the set holds [card-4] before [card-2], and the first visit ended with
    the layout [3,1,0,2,4]), yet the full reorder of the next page load
    gives [1,3,0,2,4]. *)
Lemma full_reorder_not_click_order :
  let first_visit := run visit_3_then_1 (fresh None) in
  let second_visit := run (load (grid 5)) first_visit in
  stars "top_tools" first_visit = Some ["card-4"; "card-2"] ∧
  layout first_visit = Some [[3; 1; 0; 2; 4]] ∧
  stars "top_tools" second_visit = Some ["card-4"; "card-2"] ∧
  layout second_visit = Some [[1; 3; 0; 2; 4]] ∧
  layout second_visit ≠ Some [[3; 1; 0; 2; 4]].
Proof.
  vm_compute. split_and!; try reflexivity. discriminate.
Qed.

(** ** The incremental reposition *)

Lemma after_last_star_snoc s (l : list card) x :
  after_last_star s (l ++ [x]) =
  if JSSet.has_opt (data_id x) s then S (length l) else after_last_star s l.
Proof.
  unfold after_last_star. rewrite imap_app, foldl_app. simpl.
  by rewrite Nat.add_0_r.
Qed.

(** [after_last_star] is the position right after the last starred card. *)
Lemma after_last_star_spec s (cards : list card) :
  let k := after_last_star s cards in
  k ≤ length cards ∧
  Forall (λ x, JSSet.has_opt (data_id x) s = false) (drop k cards) ∧
  (k = 0 ∨ ∃ x, cards !! (k - 1) = Some x ∧ JSSet.has_opt (data_id x) s = true).
Proof.
  induction cards as [|x l IH] using rev_ind.
  - simpl. split_and!; [done | constructor | by left].
  - rewrite after_last_star_snoc. destruct IH as (Hk & Hdrop & Hlast).
    destruct (JSSet.has_opt (data_id x) s) eqn:Hx; cbn zeta.
    + rewrite length_app. simpl. split_and!; [lia | |].
      * rewrite drop_ge; [constructor | rewrite length_app; simpl; lia].
      * right. exists x. split; [|done]. simpl. rewrite Nat.sub_0_r.
        by apply list_lookup_middle.
    + rewrite length_app. simpl. split_and!; [lia | |].
      * rewrite drop_app_le by done. apply Forall_app. split; [done|].
        by repeat constructor.
      * destruct Hlast as [?|(y & Hy & ?)]; [by left|]. right. exists y.
        split; [|done]. by apply lookup_app_l_Some.
Qed.

Lemma find_split {A} (p : A → bool) (l : list A) r :
  List.find p l = Some r →
  ∃ l1 l2, l = l1 ++ r :: l2 ∧ Forall (λ x, p x = false) l1 ∧ p r = true.
Proof.
  induction l as [|x l IH]; simpl; [done|].
  destruct (p x) eqn:Hx.
  - intros [= <-]. exists [], l. by repeat split.
  - intros (l1 & l2 & -> & H1 & Hr)%IH. exists (x :: l1), l2.
    repeat split; [|done]. by constructor.
Qed.

Lemma find_none_Forall {A} (p : A → bool) (l : list A) :
  List.find p l = None → Forall (λ x, p x = false) l.
Proof.
  induction l as [|x l IH]; simpl; [constructor|].
  destruct (p x) eqn:Hx; [done|]. intros H. constructor; [done|]. by apply IH.
Qed.

Lemma without_app n (l1 l2 : list card) :
  without n (l1 ++ l2) = without n l1 ++ without n l2.
Proof. apply List.filter_app. Qed.

Lemma without_Forall (P : card → Prop) n l :
  Forall P l → Forall P (without n l).
Proof.
  induction 1 as [|x l Hx Hl IH]; simpl; [constructor|].
  destruct (negb _); [by constructor | done].
Qed.

Lemma place_before_middle c r (l1 l2 : list card) :
  Forall (λ x, node x ≠ node r) l1 →
  place_before (node r) c (l1 ++ r :: l2) = l1 ++ c :: r :: l2.
Proof.
  induction 1 as [|x l1 Hx Hl IH]; simpl.
  - by rewrite decide_True.
  - rewrite decide_False by done. by f_equal.
Qed.

(** The unstarred case of [repositionCard], on the children [cards] of the
    segment, whose elements are distinct; [c] is the element being moved. *)
Lemma reposition_unstarred_place segSet c id (cards : list card) :
  data_id c = Some id →
  id ∉ segSet →
  NoDup (node <$> cards) →
  (∀ x, x ∈ cards → node x = node c → x = c) →
  let k := after_last_star segSet cards in
  ∃ lo hi,
    reposition_cards segSet c cards
      = without (node c) (take k cards) ++ lo ++ c :: hi ∧
    without (node c) (drop k cards) = lo ++ hi ∧
    Forall (λ x, origIndex x ≤ origIndex c) lo ∧
    match hi with
    | [] => True
    | r :: _ => origIndex c < origIndex r
    end.
Proof.
  intros Hc Hid Hnd Hsame k. unfold reposition_cards. rewrite Hc.
  apply has_false in Hid as ->. fold k.
  assert (cards = take k cards ++ drop k cards) as Hsplit
    by (by rewrite take_drop).
  destruct (List.find _ (drop k cards)) as [r|] eqn:Hfind; simpl.
  - apply find_split in Hfind as (lo0 & hi0 & Hpost & Hlo & Hr).
    apply Nat.ltb_lt in Hr.
    assert (node r ≠ node c) as Hrc.
    { intros Heq. assert (r = c) as ->; [|lia]. apply Hsame; [|done].
      rewrite Hsplit, Hpost. rewrite !elem_of_app, elem_of_cons. tauto. }
    exists (without (node c) lo0), (r :: without (node c) hi0).
    rewrite Hpost. split_and!.
    + rewrite Hsplit at 1. rewrite Hpost, !without_app. simpl.
      rewrite (bool_decide_eq_false_2 _ Hrc). simpl.
      rewrite app_assoc, place_before_middle; [by rewrite <- app_assoc|].
      rewrite <- without_app. apply without_Forall.
      rewrite Hsplit, Hpost, app_assoc, fmap_app, fmap_cons in Hnd.
      apply NoDup_app in Hnd as (_ & Hdis & _).
      apply Forall_forall. intros x Hx Heq.
      apply (Hdis (node x)); [by apply list_elem_of_fmap_2|].
      rewrite Heq. left.
    + rewrite without_app. simpl. by rewrite (bool_decide_eq_false_2 _ Hrc).
    + apply without_Forall. eapply Forall_impl; [exact Hlo|].
      intros x Hx. simpl in Hx. apply Nat.ltb_ge in Hx. lia.
    + done.
  - apply find_none_Forall in Hfind.
    exists (without (node c) (drop k cards)), []. split_and!.
    + rewrite Hsplit at 1. rewrite without_app. by rewrite <- app_assoc.
    + by rewrite app_nil_r.
    + apply without_Forall. eapply Forall_impl; [exact Hfind|].
      intros x Hx. simpl in Hx. apply Nat.ltb_ge in Hx. lia.
    + done.
Qed.

(** C9. After a card has been unstarred, [repositionCard] moves it into the
    stretch of cards that follows the last starred card, in front of the
    first card of that stretch whose original index is greater than its
    own, or to the end if there is none; the cards up to the last starred
    one and the order of all other cards are kept. With the indices 0 and
    4 starred, 1 and 3 not, and the other cards in the order [0,4,1,3]
    (the segment being [0,4,2,1,3] or [0,2,4,1,3]), unstarring index 2
    gives [0,4,1,2,3]. *)
Theorem unstar_reposition (segSet : JSSet.t) (c : card) (id : string)
    (cards : list card) :
  data_id c = Some id →
  id ∉ segSet →
  NoDup (node <$> cards) →
  (∀ x, x ∈ cards → node x = node c → x = c) →
  let k := after_last_star segSet cards in
  (k = 0 ∨ ∃ x, cards !! (k - 1) = Some x ∧ JSSet.has_opt (data_id x) segSet = true) ∧
  Forall (λ x, JSSet.has_opt (data_id x) segSet = false) (drop k cards) ∧
  (∃ lo hi,
     reposition_cards segSet c cards
       = without (node c) (take k cards) ++ lo ++ c :: hi ∧
     without (node c) (drop k cards) = lo ++ hi ∧
     Forall (λ x, origIndex x ≤ origIndex c) lo ∧
     match hi with
     | [] => True
     | r :: _ => origIndex c < origIndex r
     end) ∧
  layout (run visit_0_4_2 (fresh None)) = Some [[0; 4; 2; 1; 3]] ∧
  stars "top_tools" (run (visit_0_4_2 ++ unstar_2) (fresh None))
    = Some ["card-1"; "card-5"] ∧
  layout (run (visit_0_4_2 ++ unstar_2) (fresh None)) = Some [[0; 4; 1; 2; 3]] ∧
  layout (run visit_0_2_4 (fresh None)) = Some [[0; 2; 4; 1; 3]] ∧
  layout (run (visit_0_2_4 ++ unstar_2) (fresh None)) = Some [[0; 4; 1; 2; 3]].
Proof.
  intros Hc Hid Hnd Hsame k.
  destruct (after_last_star_spec segSet cards) as (_ & Hdrop & Hlast).
  split_and!; [done | done | | by vm_compute..].
  by apply (reposition_unstarred_place segSet c id).
Qed.

(** ** The user identity *)

Lemma uri_tokens_nonempty c s ts : uri_tokens (String c s) = Some ts → ts ≠ [].
Proof.
  simpl. destruct (Ascii.eqb c "%").
  - destruct s as [|h [|l s']]; [done..|].
    destruct (hex_digit h), (hex_digit l); try done.
    destruct (uri_tokens s'); simpl; [|done]. by intros [= <-].
  - destruct (uri_tokens s); simpl; [|done]. by intros [= <-].
Qed.

Lemma fmap_nonempty {A} (f : list A → list A) (o : option (list A)) l :
  (∀ k, f k ≠ []) → f <$> o = Some l → l ≠ [].
Proof. intros Hf. destruct o; simpl; [|done]. intros [= <-]. apply Hf. Qed.

Lemma uri_octets_nonempty ts bytes :
  uri_octets ts = Some bytes → ts ≠ [] → bytes ≠ [].
Proof.
  destruct ts as [|[c|b] ts]; [done| |]; simpl; intros H _.
  - by apply fmap_nonempty in H.
  - destruct (b <? 128)%N; [by apply fmap_nonempty in H|].
    repeat case_match; try done; by apply fmap_nonempty in H.
Qed.

(** Decoding a non-empty string never gives the empty string. *)
Lemma decodeURIComponent_nonempty u d :
  decodeURIComponent u = Returns d → u ≠ "" → d ≠ "".
Proof.
  unfold decodeURIComponent. destruct u as [|c s]; [done|]. intros H _.
  destruct (uri_tokens (String c s)) as [ts|] eqn:Hts; simpl in H; [|done].
  destruct (uri_octets ts) as [bytes|] eqn:Hb; [|done].
  injection H as <-.
  apply uri_tokens_nonempty in Hts. apply (uri_octets_nonempty _ _ Hb) in Hts.
  by destruct bytes.
Qed.

Lemma or_null_Some v u : or_null v = Some u → v = Some u ∧ u ≠ "".
Proof.
  unfold or_null. destruct v as [x|]; simpl; [|done].
  destruct (truthy x) eqn:Hx; [|done]. intros [= <-].
  split; [done|]. by apply truthy_ne.
Qed.

(** The resolved identity is never the empty string. *)
Lemma resolve_USER_UID_nonempty e cached uid :
  resolve_USER_UID e cached = Returns uid → uid ≠ "".
Proof.
  unfold resolve_USER_UID.
  destruct (uidFromUrl e) as [u|] eqn:Hu.
  { apply or_null_Some in Hu as [_ Hu]. intros H.
    by apply (decodeURIComponent_nonempty u). }
  destruct (uidFromMainSite e) as [u|] eqn:Hm.
  { apply or_null_Some in Hm as [_ Hm]. by intros [= <-]. }
  destruct (cachedUid cached) as [u|] eqn:Hc.
  { apply or_null_Some in Hc as [_ Hc]. by intros [= <-]. }
  by intros [= <-].
Qed.

Lemma or_null_js_or a b : or_null (js_or a b) = first_defined [a; b].
Proof.
  unfold first_defined, js_or, or_null. simpl.
  destruct (truthy_opt a) eqn:Ha.
  - rewrite Ha. by destruct a.
  - by destruct (truthy_opt b) eqn:Hb; [destruct b|].
Qed.

Lemma first_defined_cons v l :
  first_defined (v :: l) =
  match or_null v with Some u => Some u | None => first_defined l end.
Proof. unfold first_defined. simpl. by destruct (or_null v). Qed.

(** The resolution beside the order of the specification: they part
    only in what line 23 does to the token of the URL. *)
Lemma resolve_by_spec e cached :
  resolve_USER_UID e cached =
    match uidFromUrl e with
    | Some t => decodeURIComponent t
    | None => Returns (identity_by_spec e cached)
    end ∧
  ∀ t, uidFromUrl e = Some t → identity_by_spec e cached = t.
Proof.
  unfold resolve_USER_UID, identity_by_spec, uidFromUrl, uidFromMainSite,
    cachedUid.
  rewrite !or_null_js_or.
  rewrite (first_defined_cons (url_uid e)), (first_defined_cons (url_user e)).
  rewrite (first_defined_cons (url_uid e)), (first_defined_cons (url_user e)).
  rewrite (first_defined_cons (main_local e)), (first_defined_cons (main_session e)).
  rewrite (first_defined_cons (main_local e)), (first_defined_cons (main_session e)).
  rewrite (first_defined_cons cached).
  destruct (or_null (url_uid e)); [split; [done|by intros ? [= <-]]|].
  destruct (or_null (url_user e)); [split; [done|by intros ? [= <-]]|].
  split; [|done].
  destruct (or_null (main_local e)); [done|].
  destruct (or_null (main_session e)); [done|].
  by destruct (or_null cached).
Qed.

Lemma uid_persist_iff uid cached :
  uid ≠ "" →
  (uid_persist uid cached = Some uid ↔ cached ≠ Some uid) ∧
  (uid_persist uid cached = None ↔ cached = Some uid).
Proof.
  intros Huid. unfold uid_persist, cachedUid.
  apply truthy_ne in Huid as Ht. rewrite Ht. simpl.
  assert (Some uid = or_null cached ↔ cached = Some uid) as Hiff.
  { split.
    - intros H. symmetry in H. by apply or_null_Some in H as [-> _].
    - intros ->. unfold or_null. simpl. by rewrite Ht. }
  destruct (bool_decide (Some uid = or_null cached)) eqn:Hd; simpl.
  - apply bool_decide_eq_true in Hd. apply Hiff in Hd. by split; split.
  - apply bool_decide_eq_false in Hd. rewrite Hiff in Hd. by split; split.
Qed.

(** A page that loads under a resolved identity runs as that identity
    and leaves it in the cache slot, when the write succeeds. *)
Lemma page_load_resolved e d s uid :
  resolve_USER_UID e (cached_uid s) = Returns uid →
  cached_uid (ls (page_load e d true s)) = Some uid ∧
  USER_UID <$> page (page_load e d true s) = Some uid.
Proof.
  intros Hres. pose proof (resolve_USER_UID_nonempty _ _ _ Hres) as Hne.
  destruct (uid_persist_iff uid (cached_uid s) Hne) as [Hw Hn].
  unfold page_load. rewrite Hres.
  cbn [ls page fmap option_fmap option_map]. rewrite init_USER_UID.
  split; [|done].
  destruct (uid_persist uid (cached_uid s)) as [v|] eqn:Hp; simpl.
  - unfold uid_persist in Hp. destruct (_ && _); [|done]. by injection Hp as <-.
  - by apply Hn.
Qed.

(** C8 fails on the code. With [?uid=a%2520b%252Bc] in the URL the
    URL-decoded token, [urlParams.get("uid")], is [a%20b%2Bc], and that is
    the identity the order of the specification gives. Line 23 decodes it
    a second time: the script runs as [a b+c] and writes [a b+c] to the
    cache slot, whatever the slot held, the document and the star slots. *)
Theorem url_token_decoded_twice (cached : option string) (d : document)
    (s : storage) :
  url_uid (env_of twice_encoded) = Some "a%20b%2Bc" ∧
  identity_by_spec (env_of twice_encoded) cached = "a%20b%2Bc" ∧
  startup_USER_UID twice_encoded cached = Returns "a b+c" ∧
  USER_UID <$> page (page_load (env_of twice_encoded) d true s) = Some "a b+c" ∧
  cached_uid (ls (page_load (env_of twice_encoded) d true s)) = Some "a b+c".
Proof.
  assert (∀ c, resolve_USER_UID (env_of twice_encoded) c = Returns "a b+c")
    as Hres by (intros c; by vm_compute).
  split; [by vm_compute|]. split; [by vm_compute|].
  split; [unfold startup_USER_UID; apply Hres|].
  destruct (page_load_resolved _ d s _ (Hres (cached_uid s))) as [Hc Hu].
  by split.
Qed.

(** C6 fails on the code. With [?uid=%25] (or [?uid=%]) in the URL,
    [urlParams.get("uid")] is ["%"] and line 23 calls [decodeURIComponent]
    on it outside of any [try]: the call throws, the script stops there and
    no application is ever created, whatever the document and the
    storage. *)
Theorem malformed_uid_token_stops_startup (d : document) (quota_ok : bool)
    (s : storage) :
  resolve_USER_UID percent_token (cached_uid s)
    = Throws "URIError: URI malformed" ∧
  page_load percent_token d quota_ok s = {| ls := s; page := None |}.
Proof. split; reflexivity. Qed.

(** ** The card indexer *)

Lemma setup_seg_cards_keeps_ids si idx cs autoId csm :
  Forall2 keeps_id cs (setup_seg_cards si idx cs autoId csm).1.1.
Proof.
  revert idx autoId csm.
  induction cs as [|c cs IH]; intros idx autoId csm; simpl; [constructor|].
  destruct (data_id c) as [v|] eqn:Hv; [destruct (truthy v) eqn:Ht|].
  all: match goal with
       | |- context [setup_seg_cards ?s ?i ?l ?x ?m] =>
           specialize (IH i x m);
           destruct (setup_seg_cards s i l x m) as [[? ?] ?]
       end; simpl in *; constructor; try done; split; try done.
  all: unfold truthy_opt; rewrite Hv; try rewrite Ht; done.
Qed.

Lemma setup_segments_keeps_ids si segs autoId csm reg :
  Forall2 keeps_ids segs (setup_segments si segs autoId csm reg).1.1.
Proof.
  revert si autoId csm reg.
  induction segs as [|s segs IH]; intros si autoId csm reg; simpl; [constructor|].
  pose proof (setup_seg_cards_keeps_ids si 0 (seg_cards s) autoId csm) as Hc.
  destruct (setup_seg_cards si 0 (seg_cards s) autoId csm) as [[cs autoId'] csm'].
  match goal with
  | |- context [setup_segments ?i segs ?x ?m ?r] =>
      specialize (IH i x m r); destruct (setup_segments i segs x m r) as [[? ?] ?]
  end.
  simpl in *. constructor; [|done]. split; [|done]. simpl.
  unfold assign_segId, truthy_opt. destruct (data_segId s) as [v|]; [|done].
  by intros ->.
Qed.

(** The part of C7 that holds: a run of [setupCards] keeps every
    identifier that is already there, of cards and of segments. *)
Lemma setupCards_keeps_identifiers a :
  Forall2 keeps_ids (segments (dom a)) (segments (dom (setupCards a))).
Proof.
  unfold setupCards.
  pose proof (setup_segments_keeps_ids 0 (segments (dom a)) 0
                (cardSegmentMap a) (starredMap a)) as H.
  by destruct (setup_segments _ _ _ _ _) as [[? ?] ?].
Qed.

(** C7 fails on the code. The identifiers are kept by a second run of
    [setupCards], but line 154 assigns [dataset.origIndex] without looking
    at what is there: once the card of index 1 has moved to the front, a
    second run records index 0 for it and index 1 for the card that was
    first. *)
Theorem setupCards_again_reassigns_origIndex :
  indexed <$> page starred_1_of_3
    = Some [[(1, Some "card-2", Some 1); (0, Some "card-1", Some 0);
             (2, Some "card-3", Some 2)]] ∧
  indexed ∘ setupCards <$> page starred_1_of_3
    = Some [[(1, Some "card-2", Some 0); (0, Some "card-1", Some 1);
             (2, Some "card-3", Some 2)]] ∧
  (λ a, data_segId <$> segments (dom (setupCards a))) <$> page starred_1_of_3
    = (λ a, data_segId <$> segments (dom a)) <$> page starred_1_of_3.
Proof. by vm_compute. Qed.

(** ** The theorems at sample pages *)

Lemma star_capacity_invariant_witness :
  page (run (five_stars ++ [Click 5 true true]) (fresh None))
    = Some (app_of (run (five_stars ++ [Click 5 true true]) (fresh None))) ∧
  starredMap (app_of (run (five_stars ++ [Click 5 true true]) (fresh None)))
    !! "top_tools" = Some ["card-2"; "card-3"; "card-4"; "card-5"; "card-6"] ∧
  JSSet.size ["card-2"; "card-3"; "card-4"; "card-5"; "card-6"] ≤ MAX_STARS.
Proof.
  assert (page (run (five_stars ++ [Click 5 true true]) (fresh None))
    = Some (app_of (run (five_stars ++ [Click 5 true true]) (fresh None))))
    as H1 by by_computation.
  assert (starredMap (app_of (run (five_stars ++ [Click 5 true true]) (fresh None)))
    !! "top_tools" = Some ["card-2"; "card-3"; "card-4"; "card-5"; "card-6"])
    as H2 by by_computation.
  split; [exact H1|]. split; [exact H2|].
  exact (star_capacity_invariant None _ _ _ _ H1 H2).
Defined.

Lemma confirm_evicts_earliest_witness :
  page (run five_stars (fresh None)) = Some (app_of full_segment) ∧
  toggle_target (app_of full_segment) 5
    = Some (indexed_card 5 false, "card-6", "top_tools") ∧
  starredMap (app_of full_segment) !! "top_tools"
    = Some ("card-1" :: ["card-2"; "card-3"; "card-4"; "card-5"]) ∧
  starredMap (t_app (toggleStar 5 true (app_of full_segment))) !! "top_tools"
    = Some (["card-2"; "card-3"; "card-4"; "card-5"] ++ ["card-6"]).
Proof.
  assert (page (run five_stars (fresh None)) = Some (app_of full_segment))
    as H1 by by_computation.
  assert (toggle_target (app_of full_segment) 5
    = Some (indexed_card 5 false, "card-6", "top_tools")) as H2 by by_computation.
  assert (starredMap (app_of full_segment) !! "top_tools"
    = Some ("card-1" :: ["card-2"; "card-3"; "card-4"; "card-5"]))
    as H3 by by_computation.
  assert (JSSet.size ("card-1" :: ["card-2"; "card-3"; "card-4"; "card-5"])
    = MAX_STARS) as H4 by reflexivity.
  assert ("card-6" ∉ "card-1" :: ["card-2"; "card-3"; "card-4"; "card-5"])
    as H5 by decide_by_computation.
  split; [exact H1|]. split; [exact H2|]. split; [exact H3|].
  exact (proj1 (confirm_evicts_earliest None _ _ _ _ _ _ _ _ H1 H2 H3 H4 H5)).
Defined.

Lemma decline_changes_nothing_witness :
  page full_segment = Some (app_of full_segment) ∧
  toggle_target (app_of full_segment) 5
    = Some (indexed_card 5 false, "card-6", "top_tools") ∧
  starredMap (app_of full_segment) !! "top_tools"
    = Some ["card-1"; "card-2"; "card-3"; "card-4"; "card-5"] ∧
  toggleStar 5 false (app_of full_segment)
    = {| t_app := app_of full_segment; t_saved := None |} ∧
  step full_segment (Click 5 false true) = full_segment.
Proof.
  assert (page full_segment = Some (app_of full_segment)) as H1 by by_computation.
  assert (toggle_target (app_of full_segment) 5
    = Some (indexed_card 5 false, "card-6", "top_tools")) as H2 by by_computation.
  assert (starredMap (app_of full_segment) !! "top_tools"
    = Some ["card-1"; "card-2"; "card-3"; "card-4"; "card-5"])
    as H3 by by_computation.
  assert (MAX_STARS ≤ JSSet.size ["card-1"; "card-2"; "card-3"; "card-4"; "card-5"])
    as H4 by (vm_compute; lia).
  assert ("card-6" ∉ ["card-1"; "card-2"; "card-3"; "card-4"; "card-5"])
    as H5 by decide_by_computation.
  split; [exact H1|]. split; [exact H2|]. split; [exact H3|].
  exact (decline_changes_nothing _ _ _ _ _ _ _ true H1 H2 H3 H4 H5).
Defined.

Lemma snapshot_hydrate_roundtrip_witness :
  page (fresh None) = None ∧
  page (run visit_3_then_1 (fresh None))
    = Some (app_of (run visit_3_then_1 (fresh None))) ∧
  hydrate (snapshot (starredMap (app_of (run visit_3_then_1 (fresh None)))))
    !! "top_tools"
    = starredMap (app_of (run visit_3_then_1 (fresh None))) !! "top_tools".
Proof.
  assert (page (fresh None) = None) as H1 by reflexivity.
  assert (page (run visit_3_then_1 (fresh None))
    = Some (app_of (run visit_3_then_1 (fresh None)))) as H2 by by_computation.
  split; [exact H1|]. split; [exact H2|].
  assert ("top_tools" ≠ "__proto__") as H3 by discriminate.
  exact (proj1 (proj2 (snapshot_hydrate_roundtrip _ _ _ H1 H2)) "top_tools" H3).
Defined.

Lemma full_reorder_layout_witness :
  (∀ x, x ∈ ["card-2"; "card-4"] ↔ x ∈ ["card-4"; "card-2"]) ∧
  reorder_layout ["card-2"; "card-4"] five_cards
    = reorder_layout ["card-4"; "card-2"] five_cards ∧
  origIndex <$> reorder_layout ["card-4"; "card-2"] five_cards = [1; 3; 0; 2; 4].
Proof.
  assert (∀ x, x ∈ ["card-2"; "card-4"] ↔ x ∈ ["card-4"; "card-2"]) as H1.
  { intros x. rewrite !elem_of_cons, !elem_of_nil. tauto. }
  split; [exact H1|]. split; [|by_computation].
  exact (proj1 (full_reorder_layout _ _ five_cards H1)).
Defined.

Lemma unstar_reposition_witness :
  data_id (indexed_card 2 false) = Some "card-3" ∧
  ("card-3" ∉ ["card-1"; "card-5"]) ∧
  NoDup (node <$> cards_0_4_2_1_3) ∧
  after_last_star ["card-1"; "card-5"] cards_0_4_2_1_3 = 2 ∧
  origIndex <$> reposition_cards ["card-1"; "card-5"] (indexed_card 2 false)
                  cards_0_4_2_1_3 = [0; 4; 1; 2; 3] ∧
  Forall (λ x, JSSet.has_opt (data_id x) ["card-1"; "card-5"] = false)
         (drop (after_last_star ["card-1"; "card-5"] cards_0_4_2_1_3)
               cards_0_4_2_1_3).
Proof.
  assert (data_id (indexed_card 2 false) = Some "card-3") as H1 by by_computation.
  assert ("card-3" ∉ ["card-1"; "card-5"]) as H2 by decide_by_computation.
  assert (NoDup (node <$> cards_0_4_2_1_3)) as H3 by decide_by_computation.
  assert (∀ x, x ∈ cards_0_4_2_1_3 →
               node x = node (indexed_card 2 false) → x = indexed_card 2 false)
    as H4.
  { intros x Hx. unfold cards_0_4_2_1_3 in Hx.
    repeat (apply elem_of_cons in Hx as [->|Hx]); try discriminate; try done.
    by apply elem_of_nil in Hx. }
  split; [exact H1|]. split; [exact H2|]. split; [exact H3|].
  split; [by_computation|]. split; [by_computation|].
  exact (proj1 (proj2 (unstar_reposition _ _ _ _ H1 H2 H3 H4))).
Defined.

Lemma toggle_updates_one_control_witness :
  find_card 0 (dom (app_of full_segment)) = Some (indexed_card 0 true) ∧
  data_id (indexed_card 0 true) = Some "card-1" ∧
  find_card 0 (dom (t_app (toggleStar 5 true (app_of full_segment))))
    = Some (indexed_card 0 true) ∧
  ∃ s, starredMap (t_app (toggleStar 5 true (app_of full_segment))) !! "top_tools"
         = Some s ∧ "card-1" ∉ s.
Proof.
  assert (page (run five_stars (fresh None)) = Some (app_of full_segment))
    as H1 by by_computation.
  assert (toggle_target (app_of full_segment) 5
    = Some (indexed_card 5 false, "card-6", "top_tools")) as H2 by by_computation.
  assert (starredMap (app_of full_segment) !! "top_tools"
    = Some ("card-1" :: ["card-2"; "card-3"; "card-4"; "card-5"]))
    as H3 by by_computation.
  assert (JSSet.size ("card-1" :: ["card-2"; "card-3"; "card-4"; "card-5"])
    = MAX_STARS) as H4 by reflexivity.
  assert ("card-6" ∉ "card-1" :: ["card-2"; "card-3"; "card-4"; "card-5"])
    as H5 by decide_by_computation.
  assert (find_card 0 (dom (app_of full_segment)) = Some (indexed_card 0 true))
    as H6 by by_computation.
  assert (data_id (indexed_card 0 true) = Some "card-1") as H7 by by_computation.
  split; [exact H6|]. split; [exact H7|].
  exact (proj2 (toggle_updates_one_control (app_of full_segment) 5 true)
           None five_stars _ _ _ _ _ 0 _ H1 H2 H3 H4 H5 eq_refl H6 H7).
Defined.

(** The capacity is enforced when a star is given, not when the registry
    is hydrated: a slot that holds six identifiers, which this script never
    writes, stays over the capacity after a confirmed eviction. *)
Remark overfull_slot_is_not_trimmed :
  let slot := {[ "top_tools" := ["card-1"; "card-2"; "card-3"; "card-4";
                                   "card-5"; "card-6"] ]} in
  let s := {| cached_uid := None;
              star_slots := {[ getStorageKey guest_literal := slot ]} |} in
  let w := run (load (grid 7) ++ [Click 6 true true]) {| ls := s; page := None |} in
  stars "top_tools" w
    = Some ["card-2"; "card-3"; "card-4"; "card-5"; "card-6"; "card-7"].
Proof. by_computation. Qed.

(** * Further properties of the star engine *)

(** ** One slot per identity *)

Lemma getStorageKey_inj u1 u2 : getStorageKey u1 = getStorageKey u2 → u1 = u2.
Proof. unfold getStorageKey. simpl. intros H. by simplify_eq. Qed.

Lemma toggleStar_USER_UID n confirm a :
  USER_UID (t_app (toggleStar n confirm a)) = USER_UID a.
Proof.
  unfold toggleStar. destruct (toggle_target a n) as [[[c id] segId]|]; [|done].
  cbn beta iota zeta. by destruct (at_capacity _ _ && negb confirm).
Qed.

Lemma reorderSegment_USER_UID si a : USER_UID (reorderSegment si a) = USER_UID a.
Proof.
  unfold reorderSegment. destruct (segments (dom a) !! si); [|done].
  by destruct (length _ <=? 1).
Qed.

Lemma run_task_USER_UID t a : USER_UID (run_task t a) = USER_UID a.
Proof.
  destruct t as [|si fi|n]; simpl.
  - unfold reorderAll. apply (foldl_keeps (λ a si, reorderSegment si a)).
    intros; apply reorderSegment_USER_UID.
  - done.
  - unfold repositionCard_callback. destruct (find_node n a) as [c|]; [|done].
    destruct (data_id c ≫= _); [|done].
    by destruct (segments (dom a) !! _).
Qed.

Lemma animationFrame_USER_UID a : USER_UID (animationFrame a) = USER_UID a.
Proof.
  unfold animationFrame.
  rewrite (foldl_keeps (λ a t, run_task t a) USER_UID); [done|].
  intros; apply run_task_USER_UID.
Qed.

Lemma step_own_slot w ev a uid' fallback :
  page w = Some a → is_load ev = false → uid' ≠ USER_UID a →
  Storage_get uid' fallback (ls (step w ev)) = Storage_get uid' fallback (ls w) ∧
  cached_uid (ls (step w ev)) = cached_uid (ls w) ∧
  ∃ a', page (step w ev) = Some a' ∧ USER_UID a' = USER_UID a.
Proof.
  intros Hp Hev Hne. destruct ev as [e d q|n confirm q|]; [done| |]; simpl; rewrite Hp.
  - simpl. split_and!; [| |eexists; split; [done|apply toggleStar_USER_UID]].
    + destruct (t_saved _); [|done]. unfold Storage_set, Storage_get.
      destruct q; [|done]. simpl. rewrite lookup_insert_ne; [done|].
      intros Heq. apply getStorageKey_inj in Heq. congruence.
    + destruct (t_saved _); [|done]. unfold Storage_set. by destruct q.
  - simpl. split_and!; [done..|]. eexists. split; [done|].
    apply animationFrame_USER_UID.
Qed.

(** Between two page loads the identity stays the one resolved at the
    load, and whatever is clicked, with whatever outcome of the writes, the
    star slot of every other identity and the cached identity are left as
    they were. *)
Theorem visit_writes_own_slot_only (w : world) (evs : list event) (a : app)
    (uid' : string) (fallback : gmap string (list string)) :
  page w = Some a →
  Forall (λ ev, is_load ev = false) evs →
  uid' ≠ USER_UID a →
  Storage_get uid' fallback (ls (run evs w)) = Storage_get uid' fallback (ls w) ∧
  cached_uid (ls (run evs w)) = cached_uid (ls w) ∧
  USER_UID <$> page (run evs w) = Some (USER_UID a).
Proof.
  intros Hp Hevs. revert w a Hp.
  induction Hevs as [|ev evs Hev Hevs IH]; intros w a Hp Hne.
  - simpl. by rewrite Hp.
  - unfold run in *. simpl.
    destruct (step_own_slot w ev a uid' fallback Hp Hev Hne)
      as (Hget & Hc & a' & Hp' & Hu).
    rewrite <- Hu in Hne.
    destruct (IH _ _ Hp' Hne) as (IH1 & IH2 & IH3).
    rewrite IH1, IH2, IH3, Hget, Hc, Hu. done.
Qed.

(** ** Toggling the same card twice *)

Lemma find_same_node n f (l : list card) :
  (∀ c, node (f c) = node c) →
  List.find (λ c, bool_decide (node c = n))
            ((λ c, if decide (node c = n) then f c else c) <$> l) =
  f <$> List.find (λ c, bool_decide (node c = n)) l.
Proof.
  intros Hf. induction l as [|x l IH]; [done|].
  rewrite fmap_cons. cbn [List.find]. rewrite IH.
  destruct (decide (node x = n)) as [Hx|Hx].
  - rewrite Hf. by rewrite !(bool_decide_eq_true_2 _ Hx).
  - by rewrite !(bool_decide_eq_false_2 _ Hx).
Qed.

Lemma toggle_target_inv a n c id segId :
  toggle_target a n = Some (c, id, segId) →
  ∃ b si seg,
    find_card n (dom a) = Some c ∧ btn c = Some b ∧ data_id c = Some id ∧
    truthy id = true ∧ cardSegmentMap a !! id = Some si ∧
    segments (dom a) !! si = Some seg ∧ data_segId seg = Some segId.
Proof.
  unfold toggle_target. intros H.
  destruct (find_card n (dom a)) as [c0|]; simpl in H; [|done].
  destruct (btn c0) as [b|] eqn:Hb; simpl in H; [|done].
  destruct (data_id c0) as [i|] eqn:Hi; simpl in H; [|done].
  destruct (truthy i) eqn:Ht; [|done].
  destruct (cardSegmentMap a !! i) as [si|] eqn:Hsi; simpl in H; [|done].
  destruct (segments (dom a) !! si) as [seg|] eqn:Hseg; simpl in H; [|done].
  destruct (data_segId seg) as [k|] eqn:Hk; simpl in H; [|done].
  simplify_eq. by exists b, si, seg.
Qed.

Lemma toggle_target_intro a n c b id si seg segId :
  find_card n (dom a) = Some c → btn c = Some b → data_id c = Some id →
  truthy id = true → cardSegmentMap a !! id = Some si →
  segments (dom a) !! si = Some seg → data_segId seg = Some segId →
  toggle_target a n = Some (c, id, segId).
Proof.
  intros Hc Hb Hi Ht Hsi Hseg Hk. unfold toggle_target.
  rewrite Hc. simpl. rewrite Hb. simpl. rewrite Hi. simpl. rewrite Ht, Hsi.
  simpl. rewrite Hseg. simpl. by rewrite Hk.
Qed.

(** A call of [toggleStar] leaves the card it was called for resolvable,
    to the same identifier and the same segment. *)
Lemma toggle_target_toggled a n c id segId confirm :
  toggle_target a n = Some (c, id, segId) →
  ∃ c', toggle_target (t_app (toggleStar n confirm a)) n = Some (c', id, segId).
Proof.
  intros Ht. pose proof Ht as (b & si & seg & Hc & Hb & Hi & Hid & Hsi & Hseg & Hk)%toggle_target_inv.
  unfold toggleStar. rewrite Ht. cbn beta iota zeta.
  destruct (at_capacity _ _ && negb confirm); [by exists c|].
  eexists. eapply toggle_target_intro.
  - unfold find_card, repositionCard, requestAnimationFrame. cbn [dom t_app].
    rewrite all_cards_map_node, find_same_node by done.
    unfold find_card in Hc. rewrite Hc. reflexivity.
  - simpl. rewrite Hb. reflexivity.
  - exact Hi.
  - exact Hid.
  - exact Hsi.
  - unfold repositionCard, requestAnimationFrame, map_node.
    cbn [dom segments t_app]. rewrite list_lookup_fmap, Hseg. reflexivity.
  - exact Hk.
Qed.

Lemma at_capacity_below id s :
  JSSet.size s < MAX_STARS → at_capacity id s = false.
Proof.
  intros Hs. unfold at_capacity. apply andb_false_iff. right.
  by apply Nat.leb_gt.
Qed.

Lemma at_capacity_member id s : id ∈ s → at_capacity id s = false.
Proof. intros Hs. unfold at_capacity. by apply has_true in Hs as ->. Qed.

Lemma delete_app x (s1 s2 : list string) :
  JSSet.delete x (s1 ++ s2) = JSSet.delete x s1 ++ JSSet.delete x s2.
Proof. unfold JSSet.delete. apply filter_app. Qed.

Lemma delete_singleton x : JSSet.delete x [x] = [].
Proof. unfold JSSet.delete. by rewrite filter_cons_False by (intros H; by apply H). Qed.

Lemma length_delete_member x (s : list string) :
  x ∈ s → length (JSSet.delete x s) < length s.
Proof.
  intros Hx. unfold JSSet.delete. apply (length_filter_lt _ _ x); [done|].
  intros H. by apply H.
Qed.

(** Starring a card of a segment that is not full and unstarring it again
    gives back the registry as it was, for every segment. *)
Theorem star_then_unstar (a : app) (n : nat) (c : card) (id segId : string)
    (s : JSSet.t) (confirm1 confirm2 : bool) :
  toggle_target a n = Some (c, id, segId) →
  starredMap a !! segId = Some s →
  id ∉ s →
  JSSet.size s < MAX_STARS →
  starredMap (t_app (toggleStar n confirm2 (t_app (toggleStar n confirm1 a))))
    = starredMap a.
Proof.
  intros Ht Hs Hid Hsz.
  destruct (toggle_target_toggled a n c id segId confirm1 Ht) as [c' Ht'].
  assert (starredMap (t_app (toggleStar n confirm1 a))
          = <[segId := s ++ [id]]> (starredMap a)) as H1.
  { rewrite (toggleStar_starredMap_Some _ _ _ _ _ _ _ Ht Hs).
    rewrite at_capacity_below by done. simpl. f_equal.
    unfold next_set. rewrite at_capacity_below by done. by apply flip_absent. }
  assert (starredMap (t_app (toggleStar n confirm1 a)) !! segId = Some (s ++ [id]))
    as Hs' by (rewrite H1; apply lookup_insert_eq).
  rewrite (toggleStar_starredMap_Some _ _ _ _ _ _ _ Ht' Hs').
  assert (id ∈ s ++ [id]) as Hin by (apply elem_of_app; right; left).
  rewrite at_capacity_member by done. simpl.
  unfold next_set. rewrite at_capacity_member, flip_present by done.
  rewrite delete_app, delete_singleton, app_nil_r, delete_absent by done.
  rewrite H1, insert_insert_eq. by apply insert_id.
Qed.

(** Unstarring a starred card and starring it again keeps the members of
    its segment's set but makes the card the youngest member: it is now
    the last in line for eviction. Nothing is asked of the user. *)
Theorem unstar_then_star (a : app) (n : nat) (c : card) (id segId : string)
    (s : JSSet.t) (confirm1 confirm2 : bool) :
  toggle_target a n = Some (c, id, segId) →
  starredMap a !! segId = Some s →
  id ∈ s →
  JSSet.size s ≤ MAX_STARS →
  starredMap (t_app (toggleStar n confirm2 (t_app (toggleStar n confirm1 a))))
    = <[segId := JSSet.delete id s ++ [id]]> (starredMap a).
Proof.
  intros Ht Hs Hid Hsz.
  destruct (toggle_target_toggled a n c id segId confirm1 Ht) as [c' Ht'].
  assert (starredMap (t_app (toggleStar n confirm1 a))
          = <[segId := JSSet.delete id s]> (starredMap a)) as H1.
  { rewrite (toggleStar_starredMap_Some _ _ _ _ _ _ _ Ht Hs).
    rewrite at_capacity_member by done. simpl. f_equal.
    unfold next_set. rewrite at_capacity_member by done. by apply flip_present. }
  assert (starredMap (t_app (toggleStar n confirm1 a)) !! segId
          = Some (JSSet.delete id s)) as Hs' by (rewrite H1; apply lookup_insert_eq).
  assert (id ∉ JSSet.delete id s) as Hout by (rewrite elem_of_delete; tauto).
  assert (JSSet.size (JSSet.delete id s) < MAX_STARS) as Hlt.
  { pose proof (length_delete_member id s Hid). unfold JSSet.size in *. lia. }
  rewrite (toggleStar_starredMap_Some _ _ _ _ _ _ _ Ht' Hs').
  rewrite at_capacity_below by done. simpl.
  unfold next_set. rewrite at_capacity_below, flip_absent by done.
  by rewrite H1, insert_insert_eq.
Qed.

(** ** What the indexer establishes *)

Lemma js_or_truthy a b : truthy_opt b = true → truthy_opt (js_or a b) = true.
Proof. intros Hb. unfold js_or. by destruct (truthy_opt a) eqn:Ha. Qed.

Lemma seg_label_nonempty s : seg_label s ≠ "".
Proof.
  unfold seg_label.
  pose proof (js_or_truthy (js_or (attr_id s) (Some (className s)))
                (Some "segment") eq_refl) as H.
  destruct (js_or _ _) as [v|]; simpl in *; [|done]. by apply truthy_ne.
Qed.

Lemma normalize_label_nonempty l : l ≠ "" → normalize_label l ≠ "".
Proof.
  destruct l as [|c r]; [done|]. intros _. unfold normalize_label. simpl.
  by destruct (is_space c).
Qed.

Lemma assign_segId_nonempty s : assign_segId s ≠ "".
Proof.
  unfold assign_segId.
  destruct (data_segId s) as [v|]; [destruct (truthy v) eqn:Hv|].
  - by apply truthy_ne.
  - apply normalize_label_nonempty, seg_label_nonempty.
  - apply normalize_label_nonempty, seg_label_nonempty.
Qed.

(** The loop over the cards of one segment. *)
Lemma setup_seg_cards_post si idx cs autoId csm :
  let r := setup_seg_cards si idx cs autoId csm in
  length r.1.1 = length cs ∧
  (∀ k, is_Some (csm !! k) → is_Some (r.2 !! k)) ∧
  (∀ k, csm !! k = Some si → r.2 !! k = Some si) ∧
  (∀ k v, r.2 !! k = Some v → csm !! k = Some v ∨ v = si) ∧
  ∀ i c', r.1.1 !! i = Some c' →
    ∃ c id, cs !! i = Some c ∧ node c' = node c ∧ btn c' = btn c ∧
      data_origIndex c' = Some (idx + i) ∧ data_id c' = Some id ∧ id ≠ "" ∧
      r.2 !! id = Some si.
Proof.
  revert idx autoId csm.
  induction cs as [|c cs IH]; intros idx autoId csm; cbn zeta.
  { simpl. split_and!; try done. intros k v ?; by left. }
  simpl.
  set (p := match data_id c with
            | Some v => if truthy v then (v, autoId)
                        else ("card-" +:+ pretty (S autoId), S autoId)
            | None => ("card-" +:+ pretty (S autoId), S autoId)
            end).
  assert (p.1 ≠ "") as Hp.
  { subst p. destruct (data_id c) as [v|]; [destruct (truthy v) eqn:Hv|]; simpl;
      try done. by apply truthy_ne. }
  destruct p as [id autoId']. simpl in Hp.
  specialize (IH (S idx) autoId' (<[id:=si]> csm)).
  destruct (setup_seg_cards si (S idx) cs autoId' (<[id:=si]> csm))
    as [[cs' a'] m']. simpl in *.
  destruct IH as (Hlen & Hgrow & Hkeep & Hval & Hcards).
  split_and!.
  - by rewrite Hlen.
  - intros k Hk. apply Hgrow. destruct (decide (id = k)) as [->|Hne].
    + rewrite lookup_insert_eq. by eexists.
    + by rewrite lookup_insert_ne.
  - intros k Hk. apply Hkeep. destruct (decide (id = k)) as [->|Hne].
    + by rewrite lookup_insert_eq.
    + by rewrite lookup_insert_ne.
  - intros k v Hk. destruct (Hval k v Hk) as [Hin|?]; [|by right].
    destruct (decide (id = k)) as [->|Hne].
    + rewrite lookup_insert_eq in Hin. right. congruence.
    + rewrite lookup_insert_ne in Hin by done. by left.
  - intros [|i] c' Hi; simpl in Hi.
    + injection Hi as <-. exists c, id. simpl. rewrite Nat.add_0_r.
      split_and!; try done. apply Hkeep, lookup_insert_eq.
    + destruct (Hcards i c' Hi) as (c0 & id0 & ? & ? & ? & Ho & ? & ? & ?).
      exists c0, id0. split_and!; try done. rewrite Ho. f_equal. lia.
Qed.

(** The loop over the segments. *)
Lemma setup_segments_post si segs autoId csm reg :
  let r := setup_segments si segs autoId csm reg in
  length r.1.1 = length segs ∧
  (∀ k, is_Some (csm !! k) → is_Some (r.1.2 !! k)) ∧
  (∀ k v, r.1.2 !! k = Some v →
     csm !! k = Some v ∨ (si ≤ v ∧ v < si + length segs)) ∧
  (∀ k, is_Some (reg !! k) → is_Some (r.2 !! k)) ∧
  ∀ j s', r.1.1 !! j = Some s' →
    ∃ s segId, segs !! j = Some s ∧
      data_segId s' = Some segId ∧ segId ≠ "" ∧ is_Some (r.2 !! segId) ∧
      length (seg_cards s') = length (seg_cards s) ∧
      ∀ i c', seg_cards s' !! i = Some c' →
        ∃ c id v, seg_cards s !! i = Some c ∧ node c' = node c ∧
          btn c' = btn c ∧ data_origIndex c' = Some i ∧
          data_id c' = Some id ∧ id ≠ "" ∧
          r.1.2 !! id = Some v ∧ si ≤ v ∧ v < si + length segs.
Proof.
  revert si autoId csm reg.
  induction segs as [|s segs IH]; intros si autoId csm reg; cbn zeta.
  { simpl. split_and!; try done. intros k v ?; by left. }
  simpl.
  pose proof (setup_seg_cards_post si 0 (seg_cards s) autoId csm) as Hc.
  destruct (setup_seg_cards si 0 (seg_cards s) autoId csm) as [[cs autoId'] csm'].
  cbn zeta in Hc. simpl in Hc.
  destruct Hc as (Hclen & Hcgrow & _ & Hcval & Hccards).
  set (reg' := match reg !! assign_segId s with
               | Some _ => reg
               | None => <[assign_segId s:=JSSet.empty]> reg
               end).
  assert (is_Some (reg' !! assign_segId s)) as Hreg'.
  { subst reg'. destruct (reg !! assign_segId s) eqn:Hr; [by eexists|].
    rewrite lookup_insert_eq. by eexists. }
  assert (∀ k, is_Some (reg !! k) → is_Some (reg' !! k)) as Hreggrow.
  { subst reg'. intros k Hk. destruct (reg !! assign_segId s) eqn:Hr; [done|].
    destruct (decide (assign_segId s = k)) as [<-|Hne].
    - rewrite lookup_insert_eq. by eexists.
    - by rewrite lookup_insert_ne. }
  specialize (IH (S si) autoId' csm' reg').
  destruct (setup_segments (S si) segs autoId' csm' reg') as [[segs' m] r].
  cbn zeta in IH. simpl in *.
  destruct IH as (Hlen & Hgrow & Hval & Hrgrow & Hsegs).
  split_and!.
  - by rewrite Hlen.
  - intros k Hk. by apply Hgrow, Hcgrow.
  - intros k v Hk. destruct (Hval k v Hk) as [Hmid|?]; [|right; lia].
    destruct (Hcval k v Hmid) as [?| ->]; [by left|right; lia].
  - intros k Hk. by apply Hrgrow, Hreggrow.
  - intros [|j] s' Hj; simpl in Hj.
    + injection Hj as <-. exists s, (assign_segId s). simpl.
      split_and!; try done.
      * apply assign_segId_nonempty.
      * by apply Hrgrow.
      * intros i c' Hi.
        destruct (Hccards i c' Hi) as (c & id & ? & ? & ? & ? & ? & ? & Hm).
        assert (is_Some (m !! id)) as [v Hv] by (apply Hgrow; by eexists).
        exists c, id, v. split_and!; try done.
        -- destruct (Hval id v Hv) as [Hmid|?]; [|lia].
           rewrite Hm in Hmid. injection Hmid as <-. lia.
        -- destruct (Hval id v Hv) as [Hmid|?]; [|lia].
           rewrite Hm in Hmid. injection Hmid as <-. lia.
    + destruct (Hsegs j s' Hj) as (s0 & segId & ? & ? & ? & ? & ? & Hcards).
      exists s0, segId. split_and!; try done.
      intros i c' Hi.
      destruct (Hcards i c' Hi) as (c & id & v & ? & ? & ? & ? & ? & ? & ? & ? & ?).
      exists c, id, v. split_and!; try done; lia.
Qed.

(** What [setupCards] leaves behind, segment by segment. *)
Lemma setupCards_post (a : app) (si : nat) (s' : segment) :
  segments (dom (setupCards a)) !! si = Some s' →
  ∃ s segId,
    segments (dom a) !! si = Some s ∧
    data_segId s' = Some segId ∧ segId ≠ "" ∧
    is_Some (starredMap (setupCards a) !! segId) ∧
    length (seg_cards s') = length (seg_cards s) ∧
    ∀ i c', seg_cards s' !! i = Some c' →
      ∃ c id sj, seg_cards s !! i = Some c ∧ node c' = node c ∧
        btn c' = btn c ∧ data_origIndex c' = Some i ∧
        data_id c' = Some id ∧ id ≠ "" ∧
        cardSegmentMap (setupCards a) !! id = Some sj ∧
        sj < length (segments (dom a)).
Proof.
  unfold setupCards.
  pose proof (setup_segments_post 0 (segments (dom a)) 0 (cardSegmentMap a)
                (starredMap a)) as H.
  destruct (setup_segments _ _ _ _ _) as [[segs m] r]. cbn zeta in H.
  simpl in *. destruct H as (_ & _ & _ & _ & Hsegs).
  intros Hs'. destruct (Hsegs si s' Hs') as (s & segId & ? & ? & ? & ? & ? & Hc).
  exists s, segId. split_and!; try done.
  intros i c' Hi. destruct (Hc i c' Hi) as (c & id & v & ? & ? & ? & ? & ? & ? & ? & ? & ?).
  exists c, id, v. split_and!; try done.
Qed.

Lemma setupCards_length a :
  length (segments (dom (setupCards a))) = length (segments (dom a)).
Proof.
  unfold setupCards.
  pose proof (setup_segments_post 0 (segments (dom a)) 0 (cardSegmentMap a)
                (starredMap a)) as H.
  destruct (setup_segments _ _ _ _ _) as [[segs m] r]. cbn zeta in H.
  simpl in *. by destruct H as (-> & _).
Qed.

(** After [setupCards], every segment has a non-empty identifier with a
    set in the registry, and every card of a segment has a non-empty
    identifier that [cardSegmentMap] resolves to a segment of the document,
    and its position in the segment as original index. Elements and star
    controls are the ones of the page, and no segment is added or dropped. *)
Theorem setupCards_indexes (a : app) (si : nat) (s' : segment) :
  segments (dom (setupCards a)) !! si = Some s' →
  length (segments (dom (setupCards a))) = length (segments (dom a)) ∧
  ∃ s segId,
    segments (dom a) !! si = Some s ∧
    data_segId s' = Some segId ∧ segId ≠ "" ∧
    is_Some (starredMap (setupCards a) !! segId) ∧
    length (seg_cards s') = length (seg_cards s) ∧
    ∀ i c', seg_cards s' !! i = Some c' →
      ∃ c id sj, seg_cards s !! i = Some c ∧ node c' = node c ∧
        btn c' = btn c ∧ data_origIndex c' = Some i ∧
        data_id c' = Some id ∧ id ≠ "" ∧
        cardSegmentMap (setupCards a) !! id = Some sj ∧
        sj < length (segments (dom a)).
Proof.
  intros Hs'. split; [apply setupCards_length|].
  destruct (setupCards_post a si s' Hs')
    as (s & segId & Hs & Hid & Hne & Hreg & Hlen & Hcards).
  exists s, segId. split_and!; try done.
Qed.

Lemma keeps_id_nodes cs cs' :
  Forall2 keeps_id cs cs' → node <$> cs' = node <$> cs.
Proof.
  induction 1 as [|c c' cs cs' [Hn _] _ IH]; [done|].
  rewrite !fmap_cons. by f_equal.
Qed.

Lemma keeps_ids_nodes segs segs' :
  Forall2 keeps_ids segs segs' →
  node <$> concat (seg_cards <$> segs') = node <$> concat (seg_cards <$> segs).
Proof.
  induction 1 as [|s s' segs segs' [_ Hc] _ IH]; [done|].
  rewrite !fmap_cons. simpl. rewrite !fmap_app. f_equal; [|done].
  by apply keeps_id_nodes.
Qed.

Lemma setupCards_loose a : loose_cards (dom (setupCards a)) = loose_cards (dom a).
Proof. unfold setupCards. by destruct (setup_segments _ _ _ _ _) as [[? ?] ?]. Qed.

(** The indexer creates, removes and moves no element. *)
Lemma setupCards_nodes a :
  node <$> all_cards (dom (setupCards a)) = node <$> all_cards (dom a).
Proof.
  unfold all_cards. rewrite !fmap_app, setupCards_loose. f_equal.
  apply keeps_ids_nodes, setupCards_keeps_identifiers.
Qed.

Lemma apply_star_state_node a c : node (apply_star_state a c) = node c.
Proof. unfold apply_star_state. by repeat case_match. Qed.

Lemma apply_star_state_id a c : data_id (apply_star_state a c) = data_id c.
Proof. unfold apply_star_state. by repeat case_match. Qed.

Lemma apply_star_state_origIndex a c :
  data_origIndex (apply_star_state a c) = data_origIndex c.
Proof. unfold apply_star_state. by repeat case_match. Qed.

Lemma apply_star_state_btn a c : is_Some (btn c) → is_Some (btn (apply_star_state a c)).
Proof.
  unfold apply_star_state. intros [b Hb]. rewrite Hb.
  repeat case_match; simpl; try rewrite Hb; by eexists.
Qed.

Lemma all_cards_applyInitialStarState a :
  all_cards (dom (applyInitialStarState a)) = apply_star_state a <$> all_cards (dom a).
Proof.
  unfold all_cards, applyInitialStarState. simpl. rewrite fmap_app. f_equal.
  induction (segments (dom a)) as [|s l IH]; simpl; [done|].
  rewrite fmap_app. by f_equal.
Qed.

Lemma find_unique_node (l : list card) x :
  NoDup (node <$> l) → x ∈ l →
  List.find (λ c, bool_decide (node c = node x)) l = Some x.
Proof.
  induction l as [|y l IH]; intros Hnd Hx; [by apply elem_of_nil in Hx|].
  rewrite fmap_cons in Hnd. apply NoDup_cons in Hnd as [Hy Hnd]. simpl.
  apply elem_of_cons in Hx as [->|Hx].
  - by rewrite bool_decide_eq_true_2.
  - rewrite bool_decide_eq_false_2; [by apply IH|].
    intros Heq. apply Hy. rewrite Heq. by apply list_elem_of_fmap_2.
Qed.

Lemma elem_of_concat_lookup {A} (ls : list (list A)) j l i (x : A) :
  ls !! j = Some l → l !! i = Some x → x ∈ concat ls.
Proof.
  revert j. induction ls as [|k ls IH]; intros j Hj Hi; [done|].
  simpl. apply elem_of_app. destruct j as [|j]; simpl in Hj.
  - injection Hj as ->. left. by apply list_elem_of_lookup_2 in Hi.
  - right. by apply (IH j).
Qed.

Lemma elem_of_all_cards d si s i c :
  segments d !! si = Some s → seg_cards s !! i = Some c → c ∈ all_cards d.
Proof.
  intros Hs Hc. unfold all_cards. apply elem_of_app. left.
  apply (elem_of_concat_lookup _ si (seg_cards s) i); [|done].
  by rewrite list_lookup_fmap, Hs.
Qed.

Lemma segId_of_applyInitialStarState a c :
  segId_of (applyInitialStarState a) (apply_star_state a c) = segId_of a c.
Proof.
  unfold segId_of. rewrite apply_star_state_id.
  destruct (data_id c) as [id|]; simpl; [|done].
  destruct (cardSegmentMap a !! id) as [si|]; simpl; [|done].
  rewrite list_lookup_fmap. by destruct (segments (dom a) !! si).
Qed.

Lemma apply_star_state_nodes a (l : list card) :
  node <$> (apply_star_state a <$> l) = node <$> l.
Proof.
  induction l as [|x l IH]; [done|]. rewrite !fmap_cons.
  by rewrite apply_star_state_node, IH.
Qed.

(** ** What [init] establishes *)

(** On a page whose card elements are distinct, once [init] has run every
    star control of a card inside a segment answers a click: the card
    resolves to an identifier and to a segment that has a set in the
    registry, its original index is its position on the page, and a
    confirmed toggle gets as far as [Storage.set]. *)
Theorem init_makes_controls_live (uid : string) (d : document) (s0 : storage)
    (si i : nat) (s : segment) (c : card) (b : star_btn) :
  NoDup (node <$> all_cards d) →
  segments d !! si = Some s →
  seg_cards s !! i = Some c →
  btn c = Some b →
  ∃ c' id segId,
    toggle_target (init uid d s0) (node c) = Some (c', id, segId) ∧
    data_origIndex c' = Some i ∧
    is_Some (starredMap (init uid d s0) !! segId) ∧
    is_Some (t_saved (toggleStar (node c) true (init uid d s0))).
Proof.
  intros Hnd Hs Hc Hb.
  set (a0 := {| USER_UID := uid; dom := d; frags := [];
                starredMap := hydrate (Storage_get uid ∅ s0);
                cardSegmentMap := ∅; raf := [] |}).
  set (a1 := setupCards a0).
  assert (length (segments (dom a1)) = length (segments d)) as Hlen
    by apply (setupCards_length a0).
  assert (is_Some (segments (dom a1) !! si)) as [s1 Hs1].
  { apply lookup_lt_is_Some. rewrite Hlen. by apply lookup_lt_Some in Hs. }
  destruct (setupCards_post a0 si s1 Hs1)
    as (s' & segId1 & Hs' & _ & _ & _ & Hclen & Hcards).
  simpl in Hs'. rewrite Hs in Hs'. injection Hs' as <-.
  assert (is_Some (seg_cards s1 !! i)) as [c1 Hc1].
  { apply lookup_lt_is_Some. rewrite Hclen. by apply lookup_lt_Some in Hc. }
  destruct (Hcards i c1 Hc1)
    as (c0 & id & sj & Hc0 & Hnode & Hbtn & Horig & Hid & Hne & Hsj & Hlt).
  rewrite Hc in Hc0. injection Hc0 as <-.
  assert (is_Some (segments (dom a1) !! sj)) as [sA HsA].
  { apply lookup_lt_is_Some. by rewrite Hlen. }
  destruct (setupCards_post a0 sj sA HsA)
    as (_ & segIdA & _ & HsegIdA & _ & HregA & _ & _).
  set (c2 := apply_star_state a1 c1).
  assert (toggle_target (init uid d s0) (node c) = Some (c2, id, segIdA)) as Ht.
  { destruct (apply_star_state_btn a1 c1) as [b2 Hb2]; [rewrite Hbtn; by eexists|].
    eapply (toggle_target_intro _ _ _ b2 _ sj).
    - change (dom (init uid d s0)) with (dom (applyInitialStarState a1)).
      unfold find_card. rewrite all_cards_applyInitialStarState.
      rewrite <- Hnode, <- (apply_star_state_node a1 c1).
      apply find_unique_node.
      + rewrite apply_star_state_nodes. subst a1. by rewrite setupCards_nodes.
      + apply list_elem_of_fmap_2. by apply (elem_of_all_cards _ si s1 i).
    - exact Hb2.
    - subst c2. by rewrite apply_star_state_id.
    - by apply truthy_ne.
    - exact Hsj.
    - change (dom (init uid d s0)) with (dom (applyInitialStarState a1)).
      unfold applyInitialStarState. cbn [dom segments].
      rewrite list_lookup_fmap, HsA. reflexivity.
    - exact HsegIdA. }
  exists c2, id, segIdA. split_and!.
  - exact Ht.
  - subst c2. by rewrite apply_star_state_origIndex.
  - exact HregA.
  - unfold toggleStar. rewrite Ht. cbn beta iota zeta.
    rewrite andb_false_r. by eexists.
Qed.

(** After [init], the star control of every card that has an identifier
    and resolves to a segment shows whether the card is in that segment's
    hydrated set: class, [aria-pressed] and [aria-label] agree with the
    registry. *)
Theorem init_controls_reflect_sets (uid : string) (d : document) (s0 : storage)
    (c : card) (b : star_btn) (id segId : string) :
  c ∈ all_cards (dom (init uid d s0)) →
  btn c = Some b →
  data_id c = Some id → id ≠ "" →
  segId_of (init uid d s0) c = Some segId → segId ≠ "" →
  let starred :=
    JSSet.has id (default JSSet.empty (starredMap (init uid d s0) !! segId)) in
  b = updateStarAttr starred b ∧ cls_starred b = starred.
Proof.
  intros Hin Hb Hid Hne Hseg Hsne starred.
  set (a0 := {| USER_UID := uid; dom := d; frags := [];
                starredMap := hydrate (Storage_get uid ∅ s0);
                cardSegmentMap := ∅; raf := [] |}) in *.
  set (a1 := setupCards a0) in *.
  change (dom (init uid d s0)) with (dom (applyInitialStarState a1)) in Hin.
  change (segId_of (init uid d s0) c)
    with (segId_of (applyInitialStarState a1) c) in Hseg.
  change (starredMap (init uid d s0)) with (starredMap a1) in starred.
  rewrite all_cards_applyInitialStarState in Hin.
  apply list_elem_of_fmap in Hin as (c1 & -> & _).
  rewrite segId_of_applyInitialStarState in Hseg.
  rewrite apply_star_state_id in Hid.
  apply truthy_ne in Hne. apply truthy_ne in Hsne.
  unfold apply_star_state in Hb. rewrite Hid, Hseg in Hb.
  destruct (btn c1) as [b1|] eqn:Hb1; [|by rewrite Hb1 in Hb].
  rewrite Hne, Hsne in Hb. simpl in Hb. injection Hb as <-.
  subst starred. by destruct (starredMap a1 !! segId).
Qed.

(** ** Identifiers given by the indexer *)

Lemma auto_id_inj : Inj (=) (=) auto_id.
Proof.
  intros k1 k2 H. unfold auto_id in H. injection H as H. simpl in H.
  simplify_eq. by apply (inj pretty).
Qed.

Lemma setup_seg_cards_fresh si idx cs autoId csm :
  Forall unset_id cs →
  data_id <$> (setup_seg_cards si idx cs autoId csm).1.1
    = auto_id <$> seq (S autoId) (length cs) ∧
  (setup_seg_cards si idx cs autoId csm).1.2 = autoId + length cs.
Proof.
  revert idx autoId csm.
  induction cs as [|c cs IH]; intros idx autoId csm Hu; simpl.
  { split; [done|lia]. }
  apply Forall_cons in Hu as [Hc Hu]. unfold unset_id, truthy_opt in Hc.
  assert (match data_id c with
          | Some v => if truthy v then (v, autoId)
                      else ("card-" +:+ pretty (S autoId), S autoId)
          | None => ("card-" +:+ pretty (S autoId), S autoId)
          end = ("card-" +:+ pretty (S autoId), S autoId)) as ->.
  { destruct (data_id c) as [v|]; [|done]. by rewrite Hc. }
  specialize (IH (S idx) (S autoId)
                (<["card-" +:+ pretty (S autoId):=si]> csm) Hu).
  destruct (setup_seg_cards si (S idx) cs (S autoId) _) as [[cs' a'] m'].
  cbn [fst snd] in *. destruct IH as [IH ->].
  rewrite fmap_cons, IH. split; [done|lia].
Qed.

Lemma setup_segments_fresh si segs autoId csm reg :
  Forall (λ s, Forall unset_id (seg_cards s)) segs →
  data_id <$> concat (seg_cards <$> (setup_segments si segs autoId csm reg).1.1)
    = auto_id <$> seq (S autoId) (length (concat (seg_cards <$> segs))).
Proof.
  revert si autoId csm reg.
  induction segs as [|s segs IH]; intros si autoId csm reg Hu; [done|].
  apply Forall_cons in Hu as [Hs Hu]. cbn [setup_segments].
  pose proof (setup_seg_cards_fresh si 0 (seg_cards s) autoId csm Hs) as Hc.
  destruct (setup_seg_cards si 0 (seg_cards s) autoId csm) as [[cs autoId'] csm'].
  cbn [fst snd] in Hc. destruct Hc as [Hids ->].
  match goal with
  | |- context [setup_segments ?i segs ?x ?m ?r] =>
      specialize (IH i x m r Hu); destruct (setup_segments i segs x m r) as [[? ?] ?]
  end.
  cbn [fst snd] in *. rewrite !fmap_cons. cbn [concat seg_cards].
  rewrite fmap_app, Hids, IH, length_app, seq_app, fmap_app.
  do 3 f_equal.
Qed.

(** On a page whose cards carry no [data-id], the indexer numbers the
    cards of the segments [card-1], [card-2], ... in document order, across
    segments; no two cards get the same identifier. *)
Theorem setupCards_numbers_cards (a : app) :
  Forall (λ s, Forall unset_id (seg_cards s)) (segments (dom a)) →
  segment_card_ids (dom (setupCards a))
    = auto_id <$> seq 1 (length (concat (seg_cards <$> segments (dom a)))) ∧
  NoDup (segment_card_ids (dom (setupCards a))).
Proof.
  intros Hu.
  assert (segment_card_ids (dom (setupCards a))
    = auto_id <$> seq 1 (length (concat (seg_cards <$> segments (dom a)))))
    as Heq.
  { unfold segment_card_ids, setupCards.
    pose proof (setup_segments_fresh 0 (segments (dom a)) 0 (cardSegmentMap a)
                  (starredMap a) Hu) as H.
    by destruct (setup_segments _ _ _ _ _) as [[? ?] ?]. }
  split; [done|]. rewrite Heq.
  apply (NoDup_fmap_2 _), NoDup_seq.
Qed.

Lemma setup_seg_cards_writes si idx cs autoId csm k :
  (setup_seg_cards si idx cs autoId csm).2 !! k ≠ csm !! k →
  Some k ∈ data_id <$> (setup_seg_cards si idx cs autoId csm).1.1.
Proof.
  revert idx autoId csm.
  induction cs as [|c cs IH]; intros idx autoId csm; simpl; [done|].
  set (p := match data_id c with
            | Some v => if truthy v then (v, autoId)
                        else ("card-" +:+ pretty (S autoId), S autoId)
            | None => ("card-" +:+ pretty (S autoId), S autoId)
            end).
  destruct p as [id autoId'].
  specialize (IH (S idx) autoId' (<[id:=si]> csm)).
  destruct (setup_seg_cards si (S idx) cs autoId' (<[id:=si]> csm))
    as [[cs' a'] m']. simpl in *.
  intros Hk. destruct (decide (id = k)) as [->|Hne]; [left|].
  right. apply IH. by rewrite lookup_insert_ne.
Qed.

Lemma setup_segments_writes si segs autoId csm reg k :
  (setup_segments si segs autoId csm reg).1.2 !! k ≠ csm !! k →
  Some k ∈ data_id <$> concat (seg_cards <$> (setup_segments si segs autoId csm reg).1.1).
Proof.
  revert si autoId csm reg.
  induction segs as [|s segs IH]; intros si autoId csm reg; simpl; [done|].
  pose proof (setup_seg_cards_writes si 0 (seg_cards s) autoId csm k) as Hc.
  destruct (setup_seg_cards si 0 (seg_cards s) autoId csm) as [[cs autoId'] csm'].
  match goal with
  | |- context [setup_segments ?i segs ?x ?m ?r] =>
      specialize (IH i x m r); destruct (setup_segments i segs x m r) as [[? m'] ?]
  end.
  simpl in *. intros Hk. rewrite fmap_app, elem_of_app.
  destruct (decide (m' !! k = csm' !! k)) as [Heq|Hne]; [|right; by apply IH].
  left. apply Hc. by rewrite <- Heq.
Qed.

Lemma setup_segments_own si segs autoId csm reg j s' i c' id :
  NoDup (data_id <$> concat (seg_cards <$> (setup_segments si segs autoId csm reg).1.1)) →
  (setup_segments si segs autoId csm reg).1.1 !! j = Some s' →
  seg_cards s' !! i = Some c' →
  data_id c' = Some id →
  (setup_segments si segs autoId csm reg).1.2 !! id = Some (si + j).
Proof.
  revert si autoId csm reg j.
  induction segs as [|s segs IH]; intros si autoId csm reg j; simpl; [done|].
  pose proof (setup_seg_cards_post si 0 (seg_cards s) autoId csm) as Hc.
  destruct (setup_seg_cards si 0 (seg_cards s) autoId csm) as [[cs autoId'] csm'].
  cbn zeta in Hc. simpl in Hc. destruct Hc as (_ & _ & _ & _ & Hccards).
  pose proof (setup_segments_writes (S si) segs autoId' csm'
                (match reg !! assign_segId s with
                 | Some _ => reg
                 | None => <[assign_segId s:=JSSet.empty]> reg
                 end) id) as Hw.
  match goal with
  | |- context [setup_segments ?i segs ?x ?m ?r] =>
      specialize (IH i x m r); destruct (setup_segments i segs x m r) as [[segs' m'] ?]
  end.
  simpl in *. rewrite fmap_app. intros Hnd Hj Hi Hid.
  apply NoDup_app in Hnd as (_ & Hdis & Hnd).
  destruct j as [|j]; simpl in Hj.
  - injection Hj as <-. simpl in Hi.
    destruct (Hccards i c' Hi) as (_ & id' & _ & _ & _ & _ & Hid' & _ & Hm).
    rewrite Hid in Hid'. injection Hid' as <-. rewrite Nat.add_0_r.
    destruct (decide (m' !! id = csm' !! id)) as [Heq|Hne]; [by rewrite Heq|].
    exfalso. apply (Hdis (Some id)); [|by apply Hw].
    rewrite <- Hid. apply list_elem_of_fmap_2. by apply list_elem_of_lookup_2 in Hi.
  - rewrite (IH j Hnd Hj Hi Hid). f_equal. lia.
Qed.

(** When the cards of the segments have distinct identifiers after
    [setupCards] (in particular when the page gives none), [cardSegmentMap]
    resolves the identifier of every card to the segment the card is in. *)
Theorem setupCards_resolves_own_segment (a : app) (si i : nat) (s' : segment)
    (c' : card) (id : string) :
  NoDup (segment_card_ids (dom (setupCards a))) →
  segments (dom (setupCards a)) !! si = Some s' →
  seg_cards s' !! i = Some c' →
  data_id c' = Some id →
  cardSegmentMap (setupCards a) !! id = Some si.
Proof.
  unfold segment_card_ids, setupCards.
  pose proof (setup_segments_own 0 (segments (dom a)) 0 (cardSegmentMap a)
                (starredMap a) si s' i c' id) as H.
  destruct (setup_segments _ _ _ _ _) as [[segs m] r]. simpl in *.
  intros. by apply H.
Qed.

(** ** More on the full reorder *)

Lemma filter_partition_perm {A} (p : A → bool) (l : list A) :
  List.filter p l ++ List.filter (λ x, negb (p x)) l ≡ₚ l.
Proof.
  induction l as [|x l IH]; simpl; [done|].
  destruct (p x); simpl.
  - by rewrite IH.
  - rewrite <- Permutation_middle. by rewrite IH.
Qed.

Lemma sort_sorted_id l :
  StronglySorted by_origIndex l → sort_by_origIndex l = l.
Proof.
  unfold sort_by_origIndex. induction 1 as [|x l Hl IH Hx]; simpl; [done|].
  rewrite IH. destruct Hx as [|y l' Hy _]; simpl; [done|].
  unfold by_origIndex in Hy. by apply Nat.leb_le in Hy as ->.
Qed.

Lemma filter_all {A} (p : A → bool) (l : list A) :
  Forall (λ x, p x = true) l → List.filter p l = l.
Proof. induction 1 as [|x l Hx _ IH]; simpl; [done|]. by rewrite Hx, IH. Qed.

Lemma filter_none {A} (p : A → bool) (l : list A) :
  Forall (λ x, p x = false) l → List.filter p l = [].
Proof. induction 1 as [|x l Hx _ IH]; simpl; [done|]. by rewrite Hx. Qed.

Lemma Forall_filter_true {A} (p : A → bool) (l : list A) :
  Forall (λ x, p x = true) (List.filter p l).
Proof.
  induction l as [|x l IH]; simpl; [constructor|].
  destruct (p x) eqn:Hx; [by constructor|done].
Qed.

(** The full reorder keeps every card of the segment, each once, and a
    second full reorder changes nothing. *)
Theorem reorder_layout_stable (segSet : JSSet.t) (cards : list card) :
  reorder_layout segSet cards ≡ₚ cards ∧
  reorder_layout segSet (reorder_layout segSet cards) = reorder_layout segSet cards.
Proof.
  split.
  - unfold reorder_layout. rewrite sort_by_origIndex_perm.
    apply filter_partition_perm.
  - unfold reorder_layout at 1.
    set (st := List.filter (is_starred segSet) cards).
    set (un := sort_by_origIndex
                 (List.filter (λ c, negb (is_starred segSet c)) cards)).
    assert (Forall (λ x, is_starred segSet x = true) st) as Hst
      by apply Forall_filter_true.
    assert (Forall (λ x, negb (is_starred segSet x) = true) un) as Hun.
    { subst un. rewrite sort_by_origIndex_perm.
      apply (Forall_filter_true (λ c, negb (is_starred segSet c))). }
    change (reorder_layout segSet cards) with (st ++ un).
    rewrite !List.filter_app.
    rewrite (filter_all _ st Hst).
    rewrite (filter_none (is_starred segSet) un).
    2: { eapply Forall_impl; [exact Hun|]. intros x Hx. simpl in Hx.
         by apply negb_true_iff in Hx. }
    rewrite (filter_none (λ c, negb (is_starred segSet c)) st).
    2: { eapply Forall_impl; [exact Hst|]. intros x Hx. simpl in Hx.
         simpl. by rewrite Hx. }
    rewrite (filter_all _ un Hun). rewrite app_nil_r. simpl.
    f_equal. apply sort_sorted_id. apply sort_by_origIndex_sorted.
Qed.

(** [reorderSegment] followed by the frame callback it queues: a segment
    of two cards or more ends with the layout of the full reorder, the
    other segments are not touched and the fragment is left empty; a
    segment of at most one card is not touched at all. *)
Theorem reorderSegment_then_frame (a : app) (si : nat) (seg : segment) :
  segments (dom a) !! si = Some seg →
  let segSet := default JSSet.empty (data_segId seg ≫= λ k, starredMap a !! k) in
  let after := appendFragment si (length (frags a)) (reorderSegment si a) in
  (length (seg_cards seg) ≤ 1 → reorderSegment si a = a) ∧
  (1 < length (seg_cards seg) →
     raf (reorderSegment si a) = raf a ++ [AppendFragment si (length (frags a))] ∧
     segments (dom (reorderSegment si a)) !! si = Some (set_cards [] seg) ∧
     segments (dom after) !! si
       = Some (set_cards (reorder_layout segSet (seg_cards seg)) seg) ∧
     (∀ sj, sj ≠ si → segments (dom after) !! sj = segments (dom a) !! sj) ∧
     frags after = frags a ++ [[]]).
Proof.
  intros Hseg segSet after. split.
  - intros Hle. unfold reorderSegment. rewrite Hseg.
    by apply Nat.leb_le in Hle as ->.
  - intros Hlt. subst after. unfold reorderSegment. rewrite Hseg.
    apply Nat.leb_gt in Hlt. rewrite Hlt.
    unfold appendFragment, requestAnimationFrame, update_segment.
    cbn [raf dom frags segments].
    split_and!.
    + done.
    + by rewrite list_lookup_alter_eq, Hseg.
    + rewrite !list_lookup_alter_eq, Hseg.
      rewrite lookup_app_r by done. rewrite Nat.sub_diag. done.
    + intros sj Hne. by rewrite !list_lookup_alter_ne.
    + rewrite insert_app_r_alt by done. by rewrite Nat.sub_diag.
Qed.

(** ** More on the incremental reposition *)

(** The place the starred branch of [repositionCard] puts the card. *)
Lemma reposition_starred_place (segSet : JSSet.t) (c : card) (id : string)
    (cards : list card) :
  data_id c = Some id →
  id ∈ segSet →
  NoDup (node <$> cards) →
  (∀ x, x ∈ cards → node x = node c → x = c) →
  ∃ l1 l2,
    cards = l1 ++ l2 ∧
    Forall (λ x, shown_starred segSet x = true) l1 ∧
    match l2 with
    | [] => True
    | r :: _ => shown_starred segSet r = false
    end ∧
    reposition_cards segSet c cards
      = without (node c) l1 ++ c :: without (node c) l2.
Proof.
  intros Hc Hid Hnd Hsame. unfold reposition_cards. rewrite Hc.
  apply has_true in Hid as Hh. rewrite Hh.
  destruct (List.find _ cards) as [r|] eqn:Hfind; simpl.
  - apply find_split in Hfind as (l1 & l2 & -> & Hl1 & Hr).
    apply negb_true_iff in Hr.
    assert (node r ≠ node c) as Hrc.
    { intros Heq. assert (r = c) as ->.
      { apply Hsame; [|done]. rewrite elem_of_app, elem_of_cons. tauto. }
      rewrite Hc in Hr. simpl in Hr. congruence. }
    exists l1, (r :: l2). split_and!; [done | | done |].
    + eapply Forall_impl; [exact Hl1|]. intros x Hx. simpl in Hx.
      by apply negb_false_iff in Hx.
    + rewrite without_app. simpl. rewrite (bool_decide_eq_false_2 _ Hrc). simpl.
      apply place_before_middle. apply without_Forall.
      rewrite fmap_app, fmap_cons in Hnd.
      apply NoDup_app in Hnd as (_ & Hdis & _).
      apply Forall_forall. intros x Hx Heq.
      apply (Hdis (node x)); [by apply list_elem_of_fmap_2|]. rewrite Heq. left.
  - apply find_none_Forall in Hfind.
    exists cards, []. rewrite app_nil_r. split_and!; [done | | done | done].
    eapply Forall_impl; [exact Hfind|]. intros x Hx. simpl in Hx.
    by apply negb_false_iff in Hx.
Qed.

Lemma without_absent n (l : list card) : n ∉ node <$> l → without n l = l.
Proof.
  induction l as [|z l IH]; intros Hn; simpl; [done|].
  rewrite fmap_cons in Hn. apply not_elem_of_cons in Hn as [Hne Hn].
  rewrite bool_decide_eq_false_2 by done. simpl. f_equal. by apply IH.
Qed.

Lemma without_without n (l : list card) : without n (without n l) = without n l.
Proof.
  induction l as [|z l IH]; simpl; [done|].
  destruct (bool_decide (node z = n)) eqn:Hz; simpl; [done|].
  rewrite Hz. simpl. by rewrite IH.
Qed.

(** The starred case of [repositionCard], on the children [cards] of the
    segment, whose elements are distinct: the card goes right behind the
    leading run of starred cards, in front of the first card that is not
    starred, or to the end when all are starred; the other cards keep
    their order. *)
Theorem star_reposition (segSet : JSSet.t) (c : card) (id : string)
    (cards : list card) :
  data_id c = Some id →
  id ∈ segSet →
  NoDup (node <$> cards) →
  (∀ x, x ∈ cards → node x = node c → x = c) →
  (∃ l1 l2,
    cards = l1 ++ l2 ∧
    Forall (λ x, shown_starred segSet x = true) l1 ∧
    match l2 with
    | [] => True
    | r :: _ => shown_starred segSet r = false
    end ∧
    reposition_cards segSet c cards
      = without (node c) l1 ++ c :: without (node c) l2) ∧
  without (node c) (reposition_cards segSet c cards) = without (node c) cards.
Proof.
  intros Hc Hid Hnd Hsame.
  destruct (reposition_starred_place segSet c id cards Hc Hid Hnd Hsame)
    as (l1 & l2 & He & Hl1 & Hl2 & Hr).
  split; [by exists l1, l2|].
  rewrite Hr, He, !without_app. simpl.
  rewrite bool_decide_eq_true_2 by done. simpl.
  by rewrite !without_without.
Qed.

Lemma without_self_perm (l : list card) c :
  NoDup (node <$> l) → c ∈ l → c :: without (node c) l ≡ₚ l.
Proof.
  induction l as [|y l IH]; intros Hnd Hc; [by apply elem_of_nil in Hc|].
  rewrite fmap_cons in Hnd. apply NoDup_cons in Hnd as [Hy Hnd].
  apply elem_of_cons in Hc as [->|Hc]; simpl.
  - rewrite bool_decide_eq_true_2 by done. simpl. by rewrite without_absent.
  - rewrite bool_decide_eq_false_2.
    2: { intros Heq. apply Hy. rewrite Heq. by apply list_elem_of_fmap_2. }
    simpl. rewrite Permutation_swap. by rewrite IH.
Qed.

(** [repositionCard] never loses or doubles a card: the children of the
    segment afterwards are the moved card and the other children. When the
    card was a child already, they are the same cards as before. *)
Theorem reposition_keeps_cards (segSet : JSSet.t) (c : card) (id : string)
    (cards : list card) :
  data_id c = Some id →
  NoDup (node <$> cards) →
  (∀ x, x ∈ cards → node x = node c → x = c) →
  reposition_cards segSet c cards ≡ₚ c :: without (node c) cards ∧
  (c ∈ cards → reposition_cards segSet c cards ≡ₚ cards).
Proof.
  intros Hc Hnd Hsame.
  assert (reposition_cards segSet c cards ≡ₚ c :: without (node c) cards) as Hp.
  { destruct (decide (id ∈ segSet)) as [Hid|Hid].
    - destruct (reposition_starred_place segSet c id cards Hc Hid Hnd Hsame)
        as (l1 & l2 & -> & _ & _ & ->).
      rewrite without_app. by rewrite <- Permutation_middle.
    - destruct (reposition_unstarred_place segSet c id cards Hc Hid Hnd Hsame)
        as (lo & hi & -> & Hlh & _).
      rewrite <- (take_drop (after_last_star segSet cards) cards) at 3.
      rewrite without_app, Hlh.
      rewrite !app_assoc. by rewrite <- Permutation_middle. }
  split; [done|]. intros Hin. rewrite Hp. by apply without_self_perm.
Qed.

Lemma split_unique {A} (P Q : A → Prop) (l1 l2 k1 k2 : list A) :
  (∀ x, P x → Q x → False) →
  Forall P l1 → Forall P k1 → Forall Q k2 →
  match l2 with [] => True | r :: _ => Q r end →
  l1 ++ l2 = k1 ++ k2 →
  l1 = k1 ∧ l2 = k2.
Proof.
  intros HPQ Hl1. revert k1.
  induction Hl1 as [|x l1 Hx _ IH]; intros k1 Hk1 Hk2 Hhead Heq.
  - destruct Hk1 as [|y k1 Hy _]; [done|]. simpl in Heq. subst l2.
    by destruct (HPQ y).
  - destruct Hk1 as [|y k1 Hy Hk1]; simpl in Heq.
    + subst k2. apply Forall_cons in Hk2 as [Hq _]. by destruct (HPQ x).
    + injection Heq as <- Heq. destruct (IH k1 Hk1 Hk2 Hhead Heq) as [-> ->].
      done.
Qed.

Lemma shown_starred_moved segSet c id :
  data_id c = Some id → shown_starred segSet c = JSSet.has id segSet.
Proof. intros Hc. unfold shown_starred. by rewrite Hc. Qed.

(** [repositionCard] keeps the layout: when the other cards of the
    segment have the starred ones in front and the rest by ascending
    original index, so have all the cards once the toggled card has been
    put in its place, whether it was starred or unstarred. *)
Theorem reposition_keeps_layout (segSet : JSSet.t) (c : card) (id : string)
    (cards : list card) :
  data_id c = Some id →
  NoDup (node <$> cards) →
  (∀ x, x ∈ cards → node x = node c → x = c) →
  well_laid segSet (without (node c) cards) →
  well_laid segSet (reposition_cards segSet c cards).
Proof.
  intros Hc Hnd Hsame (front & back & Heq & Hfront & Hback & Hsorted).
  assert (∀ x, shown_starred segSet x = true → shown_starred segSet x = false → False)
    as Hexcl by (intros x ->; done).
  assert (∀ x, shown_starred segSet x = false → shown_starred segSet x = true → False)
    as Hexcl' by (intros x ->; done).
  pose proof (shown_starred_moved segSet c id Hc) as Hcs.
  destruct (decide (id ∈ segSet)) as [Hid|Hid].
  - (* starred: it joins the back of the starred run *)
    apply has_true in Hid as Hh. rewrite Hh in Hcs.
    destruct (reposition_starred_place segSet c id cards Hc Hid Hnd Hsame)
      as (l1 & l2 & -> & Hl1 & Hl2 & ->).
    rewrite without_app in Heq.
    assert (match without (node c) l2 with
            | [] => True
            | r :: _ => shown_starred segSet r = false
            end) as Hhead.
    { destruct l2 as [|r l2]; [done|]. simpl.
      destruct (bool_decide (node r = node c)) eqn:Hrc; simpl; [|done].
      apply bool_decide_eq_true in Hrc.
      assert (r = c) as -> by (apply Hsame; [rewrite elem_of_app, elem_of_cons; tauto|done]).
      congruence. }
    destruct (split_unique _ _ _ _ _ _ Hexcl
                (without_Forall _ (node c) _ Hl1) Hfront Hback Hhead Heq)
      as [Hf Hb].
    rewrite Hf, Hb.
    exists (front ++ [c]), back.
    split_and!; [by rewrite <- app_assoc | | done | done].
    apply Forall_app. split; [done|]. by repeat constructor.
  - (* unstarred: it goes back among the unstarred cards *)
    apply has_false in Hid as Hh. rewrite Hh in Hcs.
    destruct (reposition_unstarred_place segSet c id cards Hc Hid Hnd Hsame)
      as (lo & hi & -> & Hlh & Hlo & Hhi).
    destruct (after_last_star_spec segSet cards) as (Hk & Hdrop & Hlast).
    set (k := after_last_star segSet cards) in *.
    rewrite <- (take_drop k cards), without_app in Heq.
    assert (rev (without (node c) (drop k cards)) = rev back ∧
            rev (without (node c) (take k cards)) = rev front) as [Hb Hf].
    { apply (split_unique (λ x, shown_starred segSet x = false)
                          (λ x, shown_starred segSet x = true)); try done.
      - apply Forall_rev. by apply without_Forall.
      - by apply Forall_rev.
      - by apply Forall_rev.
      - destruct Hlast as [->|(x & Hx & Hxs)]; [done|].
        destruct k as [|k']; [done|]. simpl in Hx. rewrite Nat.sub_0_r in Hx.
        rewrite (take_S_r _ _ _ Hx), without_app. simpl.
        assert (node x ≠ node c) as Hxc.
        { intros Hn. assert (x = c) as ->.
          { apply Hsame; [|done]. by apply list_elem_of_lookup_2 in Hx. }
          unfold shown_starred in Hcs. congruence. }
        rewrite (bool_decide_eq_false_2 _ Hxc). simpl.
        by rewrite rev_app_distr.
      - by rewrite <- !rev_app_distr, Heq. }
    apply (f_equal (@rev card)) in Hb, Hf. rewrite !rev_involutive in Hb, Hf.
    rewrite Hf.
    rewrite Hlh in Hb. subst back.
    apply Forall_app in Hback as [Hblo Hbhi].
    apply StronglySorted_app in Hsorted as (Hcross & Hslo & Hshi).
    exists front, (lo ++ c :: hi). split_and!; [done | done | |].
    + apply Forall_app. split; [done|]. by constructor.
    + apply StronglySorted_app_2; [|done|].
      * intros x1 x2 Hx1 [->|Hx2]%elem_of_cons; [|by apply Hcross].
        rewrite Forall_forall in Hlo. by apply Hlo.
      * constructor; [done|]. destruct hi as [|r hi]; [constructor|].
        apply StronglySorted_cons in Hshi as [Hr _].
        constructor; [unfold by_origIndex; lia|].
        eapply Forall_impl; [exact Hr|]. unfold by_origIndex. intros; simpl in *. lia.
Qed.

(** The full reorder gives the layout that [repositionCard] keeps, as
    soon as no card carries an empty identifier (none does after
    [setupCards]). *)
Theorem reorder_layout_well_laid (segSet : JSSet.t) (cards : list card) :
  Forall (λ c, data_id c ≠ Some "") cards →
  well_laid segSet (reorder_layout segSet cards).
Proof.
  intros Hids. unfold reorder_layout.
  exists (List.filter (is_starred segSet) cards),
         (sort_by_origIndex (List.filter (λ c, negb (is_starred segSet c)) cards)).
  split_and!; [done | | | apply sort_by_origIndex_sorted].
  - eapply Forall_impl; [apply Forall_filter_true|].
    intros x Hx. simpl in Hx. unfold is_starred, shown_starred in *.
    destruct (data_id x); [|done]. simpl. by apply andb_true_iff in Hx as [_ ->].
  - rewrite sort_by_origIndex_perm. apply Forall_forall. intros x Hx.
    apply list_elem_of_In, filter_In in Hx as [Hx Hs].
    apply list_elem_of_In in Hx. rewrite Forall_forall in Hids.
    specialize (Hids x Hx). apply negb_true_iff in Hs.
    unfold is_starred, shown_starred in *.
    destruct (data_id x) as [i|]; [|done]. simpl.
    apply andb_false_iff in Hs as [Hs|Hs]; [|done].
    exfalso. apply Hids. f_equal. unfold truthy in Hs.
    apply negb_false_iff in Hs. by apply String.eqb_eq in Hs.
Qed.

(** ** Segment identifiers *)

Lemma lower_plain c : is_space c = false → plain_char (lower c) = true.
Proof.
  destruct c as [[] [] [] [] [] [] [] []]; vm_compute; congruence.
Qed.

Lemma plain_char_fixed c :
  plain_char c = true → is_space c = false ∧ lower c = c.
Proof.
  destruct c as [[] [] [] [] [] [] [] []]; vm_compute; intros; split; congruence.
Qed.

Lemma normalize_from_plain b s : all_chars plain_char (normalize_from b s) = true.
Proof.
  revert b. induction s as [|c r IH]; intros b; simpl; [done|].
  destruct (is_space c) eqn:Hc.
  - destruct b; simpl; by rewrite IH.
  - simpl. by rewrite lower_plain, IH.
Qed.

Lemma normalize_from_fixed b s :
  all_chars plain_char s = true → normalize_from b s = s.
Proof.
  revert b. induction s as [|c r IH]; intros b; simpl; [done|].
  intros [Hc Hr]%andb_true_iff.
  destruct (plain_char_fixed c Hc) as [-> ->]. by rewrite IH.
Qed.

Lemma lower_ascii c : ascii_char c = true → ascii_char (lower c) = true.
Proof.
  destruct c as [[] [] [] [] [] [] [] []]; vm_compute; congruence.
Qed.

Lemma normalize_from_ascii b s :
  all_chars ascii_char s = true →
  all_chars ascii_char (normalize_from b s) = true.
Proof.
  revert b. induction s as [|c r IH]; intros b; simpl; [done|].
  intros [Hc Hr]%andb_true_iff.
  destruct (is_space c).
  - destruct b; simpl; by rewrite IH.
  - simpl. by rewrite lower_ascii, IH.
Qed.

(** The identifier derived from an ASCII label is ASCII again, holds no
    white space and no upper-case letter, is not empty unless the label
    is, and deriving it again from itself gives it back. *)
Theorem normalize_label_canonical (label : string) :
  all_chars ascii_char label = true →
  all_chars ascii_char (normalize_label label) = true ∧
  all_chars plain_char (normalize_label label) = true ∧
  normalize_label (normalize_label label) = normalize_label label ∧
  (label ≠ "" → normalize_label label ≠ "").
Proof.
  intros Hascii. split_and!.
  - by apply normalize_from_ascii.
  - apply normalize_from_plain.
  - apply normalize_from_fixed, normalize_from_plain.
  - apply normalize_label_nonempty.
Qed.

(** ** Identity tokens that need no decoding *)

Lemma uri_tokens_plain s :
  all_chars not_percent s = true →
  uri_tokens s = Some (Lit <$> list_ascii_of_string s).
Proof.
  induction s as [|c r IH]; simpl; [done|].
  intros [Hc Hr]%andb_true_iff. unfold not_percent in Hc.
  apply negb_true_iff in Hc. rewrite Hc, (IH Hr). done.
Qed.

Lemma uri_octets_lits (l : list ascii) : uri_octets (Lit <$> l) = Some l.
Proof.
  induction l as [|c l IH]; [done|]. rewrite fmap_cons. cbn [uri_octets].
  by rewrite IH.
Qed.

Lemma decodeURIComponent_plain s :
  all_chars not_percent s = true → decodeURIComponent s = Returns s.
Proof.
  intros Hs. unfold decodeURIComponent. rewrite (uri_tokens_plain s Hs). simpl.
  rewrite uri_octets_lits. by rewrite string_of_list_ascii_of_string.
Qed.

(** When the URL-decoded token holds no percent sign, or the URL has no
    token, the start of the script completes exactly when the page may
    read storage, and then with the identity the order of the
    specification gives: a token of the URL as it is, else the main
    site's token, else the cached one, else the guest literal. Without
    access to storage it throws, token or not. *)
Theorem resolve_USER_UID_plain (b : browser) (cached : option string) :
  (∀ t, uidFromUrl (env_of b) = Some t → all_chars not_percent t = true) →
  (storage_access b = true →
     startup_USER_UID b cached = Returns (identity_by_spec (env_of b) cached)) ∧
  (storage_access b = false → ∃ msg, startup_USER_UID b cached = Throws msg) ∧
  (∀ t, uidFromUrl (env_of b) = Some t → identity_by_spec (env_of b) cached = t).
Proof.
  intros Hplain. destruct (resolve_by_spec (env_of b) cached) as [Hres Hurl].
  unfold startup_USER_UID. split_and!.
  - intros ->. rewrite Hres.
    destruct (uidFromUrl (env_of b)) as [t|] eqn:Ht; [|done].
    rewrite decodeURIComponent_plain by by apply Hplain.
    by rewrite (Hurl t).
  - intros ->. by eexists.
  - exact Hurl.
Qed.

(** Once an identity is resolved, line 33 calls [setItem] on the cache
    slot, with that identity, exactly when the slot did not already hold
    it; the page then runs as that identity and the slot holds it. *)
Theorem cache_overwritten_iff_differs (e : page_env) (cached : option string)
    (uid : string) :
  resolve_USER_UID e cached = Returns uid →
  (uid_persist uid cached = Some uid ↔ cached ≠ Some uid) ∧
  (uid_persist uid cached = None ↔ cached = Some uid) ∧
  ∀ d s, cached_uid s = cached →
    cached_uid (ls (page_load e d true s)) = Some uid ∧
    USER_UID <$> page (page_load e d true s) = Some uid.
Proof.
  intros Hres. pose proof (resolve_USER_UID_nonempty _ _ _ Hres) as Hne.
  destruct (uid_persist_iff uid cached Hne) as [Hw Hn].
  split; [done|]. split; [done|].
  intros d s <-. by apply page_load_resolved.
Qed.

(** * The listeners around the star engine *)

(** ** A change of identity in another tab *)

(** When the storage listener schedules a reload, the cache slot holds
    the new identity and the star slots are as before. The page that is
    then loaded runs under the new identity only if neither the URL nor
    the main site gives a token; a token in the URL wins again, and is
    written back over the cached identity. *)
Theorem storage_change_then_reload (ev : storage_event) (uid : string)
    (quota_ok : bool) (s s' : storage) (e : page_env) (d : document) :
  on_storage ev uid quota_ok s = (s', true) →
  ∃ v, ev_newValue ev = Some v ∧ v ≠ "" ∧ v ≠ uid ∧
    cached_uid s' = Some v ∧ star_slots s' = star_slots s ∧
    (uidFromUrl e = None → uidFromMainSite e = None →
       ∀ q, USER_UID <$> page (page_load e d q s') = Some v ∧
            ls (page_load e d q s') = s') ∧
    (∀ t, uidFromUrl e = Some t → all_chars not_percent t = true →
       USER_UID <$> page (page_load e d true s') = Some t ∧
       cached_uid (ls (page_load e d true s')) = Some t).
Proof.
  unfold on_storage. intros H.
  destruct (_ || _); [|done].
  destruct (ev_newValue ev) as [v|]; [|done].
  destruct (truthy v) eqn:Hv; [|done].
  destruct (bool_decide (v ≠ uid)) eqn:Hne; [|done].
  destruct quota_ok; [|done]. injection H as <-.
  apply bool_decide_eq_true in Hne. apply truthy_ne in Hv as Hv'.
  exists v. split_and!; try done.
  - intros Hu Hm q. unfold page_load, resolve_USER_UID. rewrite Hu, Hm.
    cbn [cached_uid]. unfold cachedUid, or_null. cbn [truthy_opt]. rewrite Hv.
    destruct (uid_persist_iff v (Some v) Hv') as [_ Hn].
    rewrite (proj2 Hn eq_refl).
    cbn [ls page fmap option_fmap option_map]. by rewrite init_USER_UID.
  - intros t Ht Hplain. unfold page_load, resolve_USER_UID. rewrite Ht.
    rewrite decodeURIComponent_plain by done.
    apply or_null_Some in Ht as [_ Ht].
    cbn [cached_uid]. unfold uid_persist.
    apply truthy_ne in Ht as ->. cbn [andb].
    destruct (negb _) eqn:Hsame;
      cbn [ls page fmap option_fmap option_map cached_uid];
      rewrite init_USER_UID; [done|].
    split; [done|].
    apply negb_false_iff, bool_decide_eq_true in Hsame.
    unfold cachedUid, or_null in Hsame. cbn [truthy_opt] in Hsame.
    rewrite Hv in Hsame. by injection Hsame as ->.
Qed.

(** ** The job filter *)

Lemma set_active_false_alter i (bs : list filter_btn) :
  set_active false <$> alter (set_active true) i (set_active false <$> bs)
    = set_active false <$> bs.
Proof.
  apply list_eq. intros k. rewrite !list_lookup_fmap.
  destruct (decide (i = k)) as [->|Hne].
  - rewrite list_lookup_alter_eq, list_lookup_fmap. by destruct (bs !! k).
  - rewrite list_lookup_alter_ne by done. rewrite list_lookup_fmap.
    by destruct (bs !! k).
Qed.

Lemma filter_of_after i j (bs : list filter_btn) b :
  alter (set_active true) i (set_active false <$> bs) !! j = Some b →
  ∃ b0, bs !! j = Some b0 ∧ data_filter b = data_filter b0 ∧
        (filter_active b = true ↔ j = i).
Proof.
  destruct (decide (i = j)) as [->|Hne].
  - rewrite list_lookup_alter_eq, list_lookup_fmap.
    destruct (bs !! j) as [b0|]; [|done]. simpl. intros [= <-].
    by exists b0.
  - rewrite list_lookup_alter_ne by done. rewrite list_lookup_fmap.
    destruct (bs !! j) as [b0|]; [|done]. simpl. intros [= <-].
    exists b0. split; [done|]. split; [done|]. simpl. split; [done|congruence].
Qed.

(** Filters do not add up: after any click on a filter button, a click
    on a button leaves the buttons and the cards as if it had been the
    only click. In particular a second click on the same button changes
    nothing. *)
Theorem filter_last_click_wins (i j : nat) (u : filter_ui) :
  j < length (filter_buttons u) →
  on_filter_click j (on_filter_click i u) = on_filter_click j u.
Proof.
  intros Hj. apply lookup_lt_is_Some in Hj as [bj Hbj].
  unfold on_filter_click at 2.
  destruct (filter_buttons u !! i) as [bi|] eqn:Hbi; [|done].
  unfold on_filter_click. cbn [filter_buttons job_cards]. rewrite Hbj.
  destruct (alter (set_active true) i (set_active false <$> filter_buttons u) !! j)
    as [b|] eqn:Hb.
  2: { apply lookup_ge_None in Hb. rewrite length_alter, length_fmap in Hb.
       apply lookup_lt_Some in Hbj. lia. }
  apply filter_of_after in Hb as (b0 & Hb0 & Hf & _).
  rewrite Hbj in Hb0. injection Hb0 as <-.
  assert (filter_of b = filter_of bj) as -> by (unfold filter_of; by rewrite Hf).
  rewrite set_active_false_alter. f_equal.
  rewrite <- list_fmap_compose. apply list_fmap_ext. by intros ? [].
Qed.

(** After a click on a filter button, the job cards that are shown are
    those whose type is the filter of the button (all of them for the
    filter [all], or for a button without filter), the clicked button is
    the only active one, and no type or filter has changed. *)
Theorem filter_click_shows (i : nat) (u : filter_ui) (b : filter_btn) :
  filter_buttons u !! i = Some b →
  let after := on_filter_click i u in
  (∀ k c', job_cards after !! k = Some c' →
     ∃ c, job_cards u !! k = Some c ∧ job_type c' = job_type c ∧
       (job_hidden c' = false ↔
          filter_of b = "all" ∨ type_of c = filter_of b)) ∧
  (∀ k b', filter_buttons after !! k = Some b' →
     ∃ b0, filter_buttons u !! k = Some b0 ∧
       data_filter b' = data_filter b0 ∧ (filter_active b' = true ↔ k = i)) ∧
  length (job_cards after) = length (job_cards u) ∧
  length (filter_buttons after) = length (filter_buttons u).
Proof.
  intros Hb after. subst after. unfold on_filter_click. rewrite Hb.
  cbn [filter_buttons job_cards]. split_and!.
  - intros k c'. rewrite list_lookup_fmap.
    destruct (job_cards u !! k) as [c|]; [|done]. simpl. intros [= <-].
    exists c. split; [done|]. split; [done|]. simpl. unfold hide_for.
    rewrite negb_false_iff, orb_true_iff, !String.eqb_eq. done.
  - intros k b'. apply filter_of_after.
  - by rewrite length_fmap.
  - by rewrite length_alter, length_fmap.
Qed.

(** ** The section menu *)

Lemma list_find_id_ext id (els els' : list page_el) :
  Forall2 (λ e e', el_id e' = el_id e) els els' →
  getElementById id els' = getElementById id els.
Proof.
  unfold getElementById. destruct (decide (id = "")) as [|_]; [done|].
  induction 1 as [|e e' els els' He _ IH]; [done|].
  simpl. rewrite He. destruct (decide (el_id e = Some id)); [done|].
  destruct (list_find _ els') as [[? ?]|], (list_find _ els) as [[? ?]|];
    simpl in *; congruence.
Qed.

Lemma Forall2_fmap_id (f : page_el → page_el) (els : list page_el) :
  (∀ e, el_id (f e) = el_id e) →
  Forall2 (λ e e', el_id e' = el_id e) els (f <$> els).
Proof. intros Hf. induction els; constructor; auto. Qed.

Lemma Forall2_alter_id (f : page_el → page_el) i (els : list page_el) :
  (∀ e, el_id (f e) = el_id e) →
  Forall2 (λ e e', el_id e' = el_id e) els (alter f i els).
Proof.
  intros Hf.
  assert (∀ l : list page_el, Forall2 (λ e e', el_id e' = el_id e) l l) as Hrefl
    by (intros l; induction l; constructor; auto).
  revert i. induction els as [|e els IH]; intros i; [constructor|].
  destruct i as [|i].
  - change (alter f 0 (e :: els)) with (f e :: els). by constructor.
  - change (alter f (S i) (e :: els)) with (e :: alter f i els).
    by constructor.
Qed.

Lemma getElementById_hide_sections id els :
  getElementById id (hide_sections els) = getElementById id els.
Proof.
  apply list_find_id_ext, Forall2_fmap_id. intros e. by destruct (is_section e).
Qed.

Lemma getElementById_alter id v i els :
  getElementById id (alter (set_el_hidden v) i els) = getElementById id els.
Proof. by apply list_find_id_ext, Forall2_alter_id. Qed.

(** One element of the page after a menu click that finds its target. *)
Lemma on_menu_click_lookup target els t m k :
  getElementById (default "undefined" target) els = Some t →
  getElementById "mainSectionMenu" els = Some m →
  on_menu_click target els !! k =
  (λ e, set_el_hidden
          (if decide (k = t) then false
           else if is_section e || bool_decide (k = m) then true
           else el_hidden e) e) <$> els !! k.
Proof.
  intros Ht Hm. unfold on_menu_click. rewrite Ht, Hm. unfold hide_sections.
  destruct (decide (k = t)) as [->|Hkt].
  - rewrite list_lookup_alter_eq, list_lookup_fmap.
    destruct (decide (m = t)) as [->|Hmt].
    + rewrite list_lookup_alter_eq. destruct (els !! t) as [[i s h]|]; [|done].
      simpl. by destruct s.
    + rewrite list_lookup_alter_ne by done.
      destruct (els !! t) as [[i s h]|]; [|done]. simpl. by destruct s.
  - rewrite list_lookup_alter_ne by done. rewrite list_lookup_fmap.
    destruct (decide (m = k)) as [->|Hmk].
    + rewrite list_lookup_alter_eq. rewrite bool_decide_eq_true_2 by done.
      destruct (els !! k) as [[i s h]|]; [|done]. simpl. by destruct s.
    + rewrite list_lookup_alter_ne by done.
      rewrite bool_decide_eq_false_2 by done.
      destruct (els !! k) as [[i s h]|]; [|done]. simpl. by destruct s.
Qed.

(** A click on a menu button whose target exists, on a page that has the
    menu element: the target is shown, the menu and every other section are
    hidden, and nothing else changes. A click whose target does not exist
    changes nothing, and on a page without the menu element no click on a
    menu button changes anything. *)
Theorem menu_click_shows_target (target : option string) (els : list page_el) :
  (getElementById (default "undefined" target) els = None →
     on_menu_click target els = els) ∧
  (getElementById "mainSectionMenu" els = None →
     on_menu_click target els = els) ∧
  ∀ t m k e',
    getElementById (default "undefined" target) els = Some t →
    getElementById "mainSectionMenu" els = Some m →
    on_menu_click target els !! k = Some e' →
    ∃ e, els !! k = Some e ∧ el_id e' = el_id e ∧ is_section e' = is_section e ∧
      el_hidden e' =
        if decide (k = t) then false
        else if is_section e || bool_decide (k = m) then true
        else el_hidden e.
Proof.
  split_and!.
  - intros Ht. unfold on_menu_click. by rewrite Ht.
  - intros Hm. unfold on_menu_click.
    destruct (getElementById (default "undefined" target) els); [|done].
    by rewrite Hm.
  - intros t m k e' Ht Hm. rewrite (on_menu_click_lookup _ _ t m k Ht Hm).
    destruct (els !! k) as [e|]; [|done]. simpl. intros [= <-]. by exists e.
Qed.

Lemma on_back_click_lookup els m k :
  getElementById "mainSectionMenu" els = Some m →
  on_back_click els !! k =
  (λ e, set_el_hidden
          (if decide (k = m) then false
           else if is_section e then true else el_hidden e) e) <$> els !! k.
Proof.
  intros Hm. unfold on_back_click. rewrite Hm. unfold hide_sections.
  destruct (decide (k = m)) as [->|Hkm].
  - rewrite list_lookup_alter_eq, list_lookup_fmap.
    destruct (els !! m) as [[i s h]|]; [|done]. simpl. by destruct s.
  - rewrite list_lookup_alter_ne by done. rewrite list_lookup_fmap.
    destruct (els !! k) as [[i s h]|]; [|done]. simpl. by destruct s.
Qed.

(** Going into a section and back: when the target of the menu button is
    a section (or the menu itself), a click on the menu button followed by
    a click on a back button leaves the page as a click on the back button
    alone does: every section hidden, the menu shown. *)
Theorem menu_then_back (target : option string) (els : list page_el) :
  (∀ t e, getElementById (default "undefined" target) els = Some t →
          els !! t = Some e →
          is_section e = true ∨ getElementById "mainSectionMenu" els = Some t) →
  on_back_click (on_menu_click target els) = on_back_click els.
Proof.
  intros Htarget.
  destruct (getElementById (default "undefined" target) els) as [t|] eqn:Ht.
  2: { unfold on_menu_click. by rewrite Ht. }
  destruct (getElementById "mainSectionMenu" els) as [m|] eqn:Hm.
  2: { unfold on_menu_click. by rewrite Ht, Hm. }
  assert (getElementById "mainSectionMenu" (on_menu_click target els) = Some m)
    as Hm'.
  { unfold on_menu_click. rewrite Ht, Hm.
    by rewrite getElementById_alter, getElementById_hide_sections,
      getElementById_alter. }
  apply list_eq. intros k.
  rewrite (on_back_click_lookup _ m k Hm'), (on_back_click_lookup _ m k Hm).
  rewrite (on_menu_click_lookup _ _ t m k Ht Hm).
  destruct (els !! k) as [e|] eqn:He; [|done]. simpl. f_equal.
  destruct (decide (k = m)) as [->|Hkm]; [done|].
  destruct (decide (k = t)) as [->|Hkt].
  - destruct (Htarget t e eq_refl He) as [Hs|Hmt]; [|congruence].
    destruct e as [i s h]. simpl in *. by rewrite Hs.
  - rewrite bool_decide_eq_false_2 by done.
    destruct e as [i s h]. simpl. by destruct s.
Qed.

(** ** What a toggle leaves in place *)

(** A call of [toggleStar] moves no card and changes no identifier or
    original index: the segments hold the same elements in the same order,
    and [cardSegmentMap] and the fragments are as before. Cards only move
    in animation frames. *)
Theorem toggle_moves_no_card (a : app) (n : nat) (confirm : bool) :
  indexed (t_app (toggleStar n confirm a)) = indexed a ∧
  cardSegmentMap (t_app (toggleStar n confirm a)) = cardSegmentMap a ∧
  frags (t_app (toggleStar n confirm a)) = frags a.
Proof.
  unfold toggleStar. destruct (toggle_target a n) as [[[c id] segId]|]; [|done].
  cbn beta iota zeta. destruct (at_capacity _ _ && negb confirm); [done|].
  split_and!; [|done..].
  unfold indexed, repositionCard, requestAnimationFrame, map_node.
  cbn [t_app dom segments]. rewrite <- list_fmap_compose.
  apply list_fmap_ext. intros _ s _. simpl. rewrite <- list_fmap_compose.
  apply list_fmap_ext. intros _ x _. simpl. by destruct (decide (node x = n)).
Qed.

(** ** The further properties at sample pages *)

Lemma visit_writes_own_slot_only_witness :
  page full_segment = Some (app_of full_segment) ∧
  Storage_get "alice" ∅ (ls (run [Click 5 true true; AnimationFrame] full_segment))
    = Storage_get "alice" ∅ (ls full_segment) ∧
  USER_UID <$> page (run [Click 5 true true; AnimationFrame] full_segment)
    = Some (USER_UID (app_of full_segment)).
Proof.
  assert (page full_segment = Some (app_of full_segment)) as H1 by by_computation.
  assert (Forall (λ ev, is_load ev = false) [Click 5 true true; AnimationFrame])
    as H2 by (repeat constructor).
  assert ("alice" ≠ USER_UID (app_of full_segment)) as H3
    by decide_by_computation.
  pose proof (visit_writes_own_slot_only full_segment _ _ "alice" ∅ H1 H2 H3)
    as (Hs & _ & Hu).
  split; [exact H1|]. split; [exact Hs|exact Hu].
Defined.

Lemma star_then_unstar_witness :
  toggle_target (laid_out (grid 5)) 2
    = Some (indexed_card 2 false, "card-3", "top_tools") ∧
  starredMap (laid_out (grid 5)) !! "top_tools" = Some [] ∧
  starredMap (t_app (toggleStar 2 true (t_app (toggleStar 2 true (laid_out (grid 5))))))
    = starredMap (laid_out (grid 5)).
Proof.
  assert (toggle_target (laid_out (grid 5)) 2
    = Some (indexed_card 2 false, "card-3", "top_tools")) as H1 by by_computation.
  assert (starredMap (laid_out (grid 5)) !! "top_tools" = Some []) as H2
    by by_computation.
  assert ("card-3" ∉ @nil string) as H3 by decide_by_computation.
  assert (JSSet.size [] < MAX_STARS) as H4 by (vm_compute; lia).
  split; [exact H1|]. split; [exact H2|].
  exact (star_then_unstar _ _ _ _ _ _ true true H1 H2 H3 H4).
Defined.

Lemma unstar_then_star_witness :
  toggle_target (app_of full_segment) 1
    = Some (indexed_card 1 true, "card-2", "top_tools") ∧
  starredMap (t_app (toggleStar 1 true (t_app (toggleStar 1 true (app_of full_segment)))))
    !! "top_tools" = Some ["card-1"; "card-3"; "card-4"; "card-5"; "card-2"].
Proof.
  assert (toggle_target (app_of full_segment) 1
    = Some (indexed_card 1 true, "card-2", "top_tools")) as H1 by by_computation.
  assert (starredMap (app_of full_segment) !! "top_tools"
    = Some ["card-1"; "card-2"; "card-3"; "card-4"; "card-5"]) as H2
    by by_computation.
  assert ("card-2" ∈ ["card-1"; "card-2"; "card-3"; "card-4"; "card-5"]) as H3
    by decide_by_computation.
  assert (JSSet.size ["card-1"; "card-2"; "card-3"; "card-4"; "card-5"] ≤ MAX_STARS)
    as H4 by (vm_compute; lia).
  split; [exact H1|].
  rewrite (unstar_then_star _ _ _ _ _ _ true true H1 H2 H3 H4).
  rewrite lookup_insert_eq. reflexivity.
Defined.

Lemma setupCards_indexes_witness :
  segments (dom (setupCards (blank_app (grid 3)))) !! 0
    = Some (seg_at (setupCards (blank_app (grid 3))) 0) ∧
  ∃ s segId,
    segments (dom (blank_app (grid 3))) !! 0 = Some s ∧
    data_segId (seg_at (setupCards (blank_app (grid 3))) 0) = Some segId ∧
    segId ≠ "".
Proof.
  assert (segments (dom (setupCards (blank_app (grid 3)))) !! 0
    = Some (seg_at (setupCards (blank_app (grid 3))) 0)) as H1 by by_computation.
  split; [exact H1|].
  destruct (setupCards_indexes _ _ _ H1) as (_ & s & segId & Hs & Hid & Hne & _).
  exists s, segId. split; [exact Hs|]. split; [exact Hid|exact Hne].
Defined.

Lemma init_makes_controls_live_witness :
  NoDup (node <$> all_cards (grid 3)) ∧
  ∃ c' id segId,
    toggle_target (init guest_literal (grid 3) (ls (fresh None))) (node (html_card 1))
      = Some (c', id, segId) ∧ data_origIndex c' = Some 1.
Proof.
  assert (NoDup (node <$> all_cards (grid 3))) as H1 by decide_by_computation.
  assert (segments (grid 3) !! 0 = Some (seg_at (blank_app (grid 3)) 0)) as H2
    by by_computation.
  assert (seg_cards (seg_at (blank_app (grid 3)) 0) !! 1 = Some (html_card 1))
    as H3 by by_computation.
  assert (btn (html_card 1) = Some plain_btn) as H4 by reflexivity.
  split; [exact H1|].
  destruct (init_makes_controls_live guest_literal (grid 3) (ls (fresh None))
              0 1 _ _ _ H1 H2 H3 H4) as (c' & id & segId & Ht & Ho & _).
  exists c', id, segId. split; [exact Ht|exact Ho].
Defined.

Lemma init_controls_reflect_sets_witness :
  indexed_card 1 true ∈ all_cards (dom (app_of (run (visit_1_then_3 ++ [PageLoad no_token (grid 5) true]) (fresh None)))) ∧
  cls_starred (updateStarAttr true plain_btn)
    = JSSet.has "card-2" ["card-2"; "card-4"].
Proof.
  set (s0 := ls (run visit_1_then_3 (fresh None))).
  assert (indexed_card 1 true ∈ all_cards (dom (init guest_literal (grid 5) s0)))
    as H1 by (apply (list_elem_of_lookup_2 _ 1); by_computation).
  assert (btn (indexed_card 1 true) = Some (updateStarAttr true plain_btn))
    as H2 by reflexivity.
  assert (data_id (indexed_card 1 true) = Some "card-2") as H3 by by_computation.
  assert ("card-2" ≠ "") as H4 by discriminate.
  assert (segId_of (init guest_literal (grid 5) s0) (indexed_card 1 true)
          = Some "top_tools") as H5 by by_computation.
  assert ("top_tools" ≠ "") as H6 by discriminate.
  pose proof (init_controls_reflect_sets guest_literal (grid 5) s0 _ _ _ _
                H1 H2 H3 H4 H5 H6) as [_ Hc].
  split.
  - apply (list_elem_of_lookup_2 _ 1). by_computation.
  - rewrite Hc. by_computation.
Defined.

Lemma setupCards_numbers_cards_witness :
  Forall (λ s, Forall unset_id (seg_cards s)) (segments (dom (blank_app (grid 3)))) ∧
  segment_card_ids (dom (setupCards (blank_app (grid 3))))
    = [Some "card-1"; Some "card-2"; Some "card-3"] ∧
  NoDup (segment_card_ids (dom (setupCards (blank_app (grid 3))))).
Proof.
  assert (Forall (λ s, Forall unset_id (seg_cards s))
                 (segments (dom (blank_app (grid 3))))) as H1
    by (repeat constructor).
  destruct (setupCards_numbers_cards (blank_app (grid 3)) H1) as [He Hn].
  split; [exact H1|]. split; [|exact Hn]. rewrite He. by_computation.
Defined.

Lemma setupCards_resolves_own_segment_witness :
  NoDup (segment_card_ids (dom (setupCards (blank_app (grid 3))))) ∧
  cardSegmentMap (setupCards (blank_app (grid 3))) !! "card-2" = Some 0.
Proof.
  assert (NoDup (segment_card_ids (dom (setupCards (blank_app (grid 3))))))
    as H1 by decide_by_computation.
  assert (segments (dom (setupCards (blank_app (grid 3)))) !! 0
    = Some (seg_at (setupCards (blank_app (grid 3))) 0)) as H2 by by_computation.
  assert (seg_cards (seg_at (setupCards (blank_app (grid 3))) 0) !! 1
    = Some {| node := 1; data_id := Some "card-2"; data_origIndex := Some 1;
              data_url := None; btn := Some plain_btn |}) as H3 by by_computation.
  split; [exact H1|].
  exact (setupCards_resolves_own_segment _ 0 1 _ _ "card-2" H1 H2 H3 eq_refl).
Defined.

Lemma reorderSegment_then_frame_witness :
  segments (dom (just_loaded (grid 3))) !! 0 = Some (seg_at (just_loaded (grid 3)) 0) ∧
  (λ s, origIndex <$> seg_cards s)
    <$> segments (dom (appendFragment 0 (length (frags (just_loaded (grid 3))))
                         (reorderSegment 0 (just_loaded (grid 3))))) !! 0
    = Some [0; 1; 2].
Proof.
  assert (segments (dom (just_loaded (grid 3))) !! 0
          = Some (seg_at (just_loaded (grid 3)) 0)) as H1 by by_computation.
  assert (1 < length (seg_cards (seg_at (just_loaded (grid 3)) 0))) as H2
    by (vm_compute; lia).
  split; [exact H1|].
  destruct (proj2 (reorderSegment_then_frame _ _ _ H1) H2) as (_ & _ & Hl & _).
  rewrite Hl. by_computation.
Defined.

Lemma star_reposition_witness :
  data_id (indexed_card 3 false) = Some "card-4" ∧
  "card-4" ∈ ["card-4"] ∧
  NoDup (node <$> five_cards) ∧
  origIndex <$> reposition_cards ["card-4"] (indexed_card 3 false) five_cards
    = [3; 0; 1; 2; 4] ∧
  ∃ l1 l2, five_cards = l1 ++ l2 ∧
    reposition_cards ["card-4"] (indexed_card 3 false) five_cards
      = without 3 l1 ++ indexed_card 3 false :: without 3 l2.
Proof.
  assert (data_id (indexed_card 3 false) = Some "card-4") as H1 by by_computation.
  assert ("card-4" ∈ ["card-4"]) as H2 by decide_by_computation.
  assert (NoDup (node <$> five_cards)) as H3 by decide_by_computation.
  assert (∀ x, x ∈ five_cards →
               node x = node (indexed_card 3 false) → x = indexed_card 3 false)
    as H4.
  { intros x Hx. unfold five_cards in Hx. simpl in Hx.
    repeat (apply elem_of_cons in Hx as [->|Hx]); try discriminate; try done.
    by apply elem_of_nil in Hx. }
  split; [exact H1|]. split; [exact H2|]. split; [exact H3|].
  split; [by_computation|].
  destruct (star_reposition _ _ _ _ H1 H2 H3 H4) as ((l1 & l2 & He & _ & _ & Hr) & _).
  exists l1, l2. split; [exact He|exact Hr].
Defined.

Lemma reposition_keeps_cards_witness :
  indexed_card 3 false ∈ five_cards ∧
  reposition_cards ["card-4"] (indexed_card 3 false) five_cards ≡ₚ five_cards.
Proof.
  assert (data_id (indexed_card 3 false) = Some "card-4") as H1 by by_computation.
  assert (NoDup (node <$> five_cards)) as H3 by decide_by_computation.
  assert (∀ x, x ∈ five_cards →
               node x = node (indexed_card 3 false) → x = indexed_card 3 false)
    as H4.
  { intros x Hx. unfold five_cards in Hx. simpl in Hx.
    repeat (apply elem_of_cons in Hx as [->|Hx]); try discriminate; try done.
    by apply elem_of_nil in Hx. }
  assert (indexed_card 3 false ∈ five_cards) as H5
    by (apply (list_elem_of_lookup_2 _ 3); by_computation).
  split; [exact H5|].
  exact (proj2 (reposition_keeps_cards ["card-4"] _ _ _ H1 H3 H4) H5).
Defined.

Lemma reposition_keeps_layout_witness :
  well_laid ["card-4"] (without 3 five_cards) ∧
  well_laid ["card-4"] (reposition_cards ["card-4"] (indexed_card 3 false) five_cards).
Proof.
  assert (data_id (indexed_card 3 false) = Some "card-4") as H1 by by_computation.
  assert (NoDup (node <$> five_cards)) as H3 by decide_by_computation.
  assert (∀ x, x ∈ five_cards →
               node x = node (indexed_card 3 false) → x = indexed_card 3 false)
    as H4.
  { intros x Hx. unfold five_cards in Hx. simpl in Hx.
    repeat (apply elem_of_cons in Hx as [->|Hx]); try discriminate; try done.
    by apply elem_of_nil in Hx. }
  assert (well_laid ["card-4"] (without (node (indexed_card 3 false)) five_cards))
    as H5.
  { exists [], (without 3 five_cards). split; [reflexivity|].
    split; [constructor|]. split.
    - repeat constructor.
    - vm_compute. repeat constructor. }
  split; [exact H5|].
  exact (reposition_keeps_layout _ _ _ _ H1 H3 H4 H5).
Defined.

Lemma reorder_layout_well_laid_witness :
  Forall (λ c, data_id c ≠ Some "") five_cards ∧
  well_laid ["card-4"; "card-2"] (reorder_layout ["card-4"; "card-2"] five_cards).
Proof.
  assert (Forall (λ c, data_id c ≠ Some "") five_cards) as H1
    by (repeat constructor; discriminate).
  split; [exact H1|]. exact (reorder_layout_well_laid _ _ H1).
Defined.

Lemma normalize_label_canonical_witness :
  all_chars ascii_char "Top  Tools" = true ∧
  normalize_label "Top  Tools" = "top_tools" ∧
  normalize_label (normalize_label "Top  Tools") = normalize_label "Top  Tools".
Proof.
  assert (all_chars ascii_char "Top  Tools" = true) as H1 by by_computation.
  split; [exact H1|]. split; [by_computation|].
  exact (proj1 (proj2 (proj2 (normalize_label_canonical "Top  Tools" H1)))).
Defined.

Lemma resolve_USER_UID_plain_witness :
  (∀ t, uidFromUrl (env_of (on_uid "abc" true)) = Some t →
        all_chars not_percent t = true) ∧
  startup_USER_UID (on_uid "abc" true) (Some "zzz") = Returns "abc" ∧
  ∃ msg, startup_USER_UID (on_uid "abc" false) (Some "zzz") = Throws msg.
Proof.
  assert (∀ access t, uidFromUrl (env_of (on_uid "abc" access)) = Some t →
                      all_chars not_percent t = true) as H1.
  { intros access t Ht. vm_compute in Ht. injection Ht as <-. reflexivity. }
  split; [exact (H1 true)|]. split.
  - exact (proj1 (resolve_USER_UID_plain (on_uid "abc" true) (Some "zzz") (H1 true))
             eq_refl).
  - exact (proj1 (proj2 (resolve_USER_UID_plain (on_uid "abc" false) (Some "zzz")
                           (H1 false))) eq_refl).
Defined.

Lemma cache_overwritten_iff_differs_witness :
  resolve_USER_UID (url_token "abc") (Some "zzz") = Returns "abc" ∧
  (uid_persist "abc" (Some "zzz") = Some "abc" ↔ Some "zzz" ≠ Some "abc") ∧
  cached_uid (ls (page_load (url_token "abc") (grid 5) true
                    {| cached_uid := Some "zzz"; star_slots := ∅ |}))
    = Some "abc".
Proof.
  assert (resolve_USER_UID (url_token "abc") (Some "zzz") = Returns "abc")
    as H1 by by_computation.
  pose proof (cache_overwritten_iff_differs (url_token "abc") (Some "zzz") "abc" H1)
    as (Hw & _ & Hl).
  split; [exact H1|]. split; [exact Hw|].
  exact (proj1 (Hl (grid 5) {| cached_uid := Some "zzz"; star_slots := ∅ |} eq_refl)).
Defined.

Lemma storage_change_then_reload_witness :
  on_storage bob_elsewhere "alice" true (ls (fresh (Some "alice")))
    = ({| cached_uid := Some "bob"; star_slots := ∅ |}, true) ∧
  ∃ v, ev_newValue bob_elsewhere = Some v ∧ v ≠ "alice" ∧
    USER_UID <$> page (page_load no_token (grid 3) true
                         {| cached_uid := Some "bob"; star_slots := ∅ |})
      = Some v.
Proof.
  assert (on_storage bob_elsewhere "alice" true (ls (fresh (Some "alice")))
    = ({| cached_uid := Some "bob"; star_slots := ∅ |}, true)) as H1
    by reflexivity.
  split; [exact H1|].
  destruct (storage_change_then_reload _ _ _ _ _ no_token (grid 3) H1)
    as (v & Hv & _ & Hne & _ & _ & Hreload & _).
  exists v. split; [exact Hv|]. split; [exact Hne|].
  exact (proj1 (Hreload eq_refl eq_refl true)).
Defined.

Lemma filter_last_click_wins_witness :
  1 < length (filter_buttons sample_filters) ∧
  on_filter_click 1 (on_filter_click 2 sample_filters)
    = on_filter_click 1 sample_filters.
Proof.
  assert (1 < length (filter_buttons sample_filters)) as H1 by (vm_compute; lia).
  split; [exact H1|]. exact (filter_last_click_wins 2 1 sample_filters H1).
Defined.

Lemma filter_click_shows_witness :
  filter_buttons sample_filters !! 1
    = Some {| data_filter := Some "remote"; filter_active := false |} ∧
  job_hidden <$> job_cards (on_filter_click 1 sample_filters)
    = [false; true; true; false] ∧
  length (job_cards (on_filter_click 1 sample_filters))
    = length (job_cards sample_filters).
Proof.
  assert (filter_buttons sample_filters !! 1
    = Some {| data_filter := Some "remote"; filter_active := false |}) as H1
    by reflexivity.
  split; [exact H1|]. split; [by_computation|].
  exact (proj1 (proj2 (proj2 (filter_click_shows 1 sample_filters _ H1)))).
Defined.

Lemma menu_click_shows_target_witness :
  getElementById "jobs" sample_page = Some 1 ∧
  getElementById "mainSectionMenu" sample_page = Some 0 ∧
  el_hidden <$> on_menu_click (Some "jobs") sample_page
    = [true; false; true; false] ∧
  ∃ e, sample_page !! 1 = Some e ∧
       el_hidden {| el_id := Some "jobs"; is_section := true; el_hidden := false |}
         = if decide (1 = 1) then false
           else if is_section e || bool_decide (1 = 0) then true else el_hidden e.
Proof.
  assert (getElementById (default "undefined" (Some "jobs")) sample_page = Some 1)
    as H1 by by_computation.
  assert (getElementById "mainSectionMenu" sample_page = Some 0) as H2
    by by_computation.
  assert (on_menu_click (Some "jobs") sample_page !! 1
    = Some {| el_id := Some "jobs"; is_section := true; el_hidden := false |})
    as H3 by by_computation.
  split; [exact H1|]. split; [exact H2|]. split; [by_computation|].
  destruct (proj2 (proj2 (menu_click_shows_target (Some "jobs") sample_page))
              1 0 1 _ H1 H2 H3) as (e & He & _ & _ & Hh).
  exists e. split; [exact He|exact Hh].
Defined.

Lemma menu_then_back_witness :
  el_hidden <$> on_back_click (on_menu_click (Some "jobs") sample_page)
    = [false; true; true; false] ∧
  on_back_click (on_menu_click (Some "jobs") sample_page)
    = on_back_click sample_page.
Proof.
  assert (∀ t e,
    getElementById (default "undefined" (Some "jobs")) sample_page = Some t →
    sample_page !! t = Some e →
    is_section e = true ∨ getElementById "mainSectionMenu" sample_page = Some t)
    as H1.
  { intros t e Ht He. vm_compute in Ht. injection Ht as <-.
    vm_compute in He. injection He as <-. left. reflexivity. }
  split; [by_computation|]. exact (menu_then_back _ _ H1).
Defined.
